(** * PokerIQ Pro GTO service: the CFR solver, its cache gate and the batch worker

    Shallow embedding of [pokeriq-pro/ai-service/main.py].

    Numbers.  Python's [float] is idealised as an exact rational ([Qc], the
    canonical rationals, so that equal values are equal terms): rounding,
    infinities and NaN are outside the model.  The one floating-point failure
    the service can hit, the [OverflowError] of converting a huge [int] to
    [float], is kept.  Python's [int] is [Z].

    Dictionaries.  Dictionaries keyed by an action name keep Python's insertion
    order (an association list), because [max(d, key=d.get)] and [sorted] read
    it.  The info-set table and the Redis store are finite maps ([gmap]); their
    iteration order only feeds commutative sums. *)

From Stdlib Require Import QArith Qcanon Qcabs Lqa ZArith Lia.
From stdpp Require Import gmap strings list fin_maps pretty numbers.

(** ** The Python runtime fragment the service uses *)

Inductive exn : Type :=
  | UnboundLocalError
  | OverflowError
  | IndexError
  | KeyError
  | ValueError
  | ValidationError
  | ZeroDivisionError.

Inductive outcome (A : Type) : Type :=
  | Ret (a : A)
  | Raise (e : exn).
Arguments Ret {A} a.
Arguments Raise {A} e.

#[global] Instance outcome_ret : MRet outcome := @Ret.
#[global] Instance outcome_bind : MBind outcome :=
  λ A B f m, match m with Ret a => f a | Raise e => Raise e end.

Definition is_Ret {A} (o : outcome A) : Prop := ∃ a, o = Ret a.

(** [for x in l: s = body(s, x)], stopping at the first exception. *)
Fixpoint for_each {S A : Type} (l : list A) (s : S) (body : S → A → outcome S) : outcome S :=
  match l with
  | [] => Ret s
  | x :: l' => s' ← body s x; for_each l' s' body
  end.

Definition float : Type := Qc.
Bind Scope Qc_scope with float.

Definition Z2Qc (z : Z) : float := Q2Qc (inject_Z z).

(** Decimal literals of the source. *)
Definition f0_4 : float := Q2Qc (2 # 5).
Definition f0_6 : float := Q2Qc (3 # 5).
Definition f0_001 : float := Q2Qc (1 # 1000).
Definition f0_01 : float := Q2Qc (1 # 100).
Definition f0_33 : float := Q2Qc (33 # 100).
Definition f0_34 : float := Q2Qc (34 # 100).
Definition f0_75 : float := Q2Qc (3 # 4).

Definition fltb (x y : float) : bool := bool_decide (x < y)%Qc.

(** [max(a, b)] returns [b] only when it is strictly larger. *)
Definition pymax (a b : float) : float := if fltb a b then b else a.
(** [min(a, b)] returns [b] only when it is strictly smaller. *)
Definition pymin (a b : float) : float := if fltb b a then b else a.

(** [float(z)], as [int * float] performs it: the integers that round to
    [2^1024] or beyond raise [OverflowError]. *)
Definition float_overflow_bound : Z := 2 ^ 1024 - 2 ^ 970.

Definition float_of_int (z : Z) : outcome float :=
  if (Z.abs z <? float_overflow_bound)%Z then Ret (Z2Qc z) else Raise OverflowError.

(** [range(n)] *)
Definition py_range (n : Z) : list Z := seqZ 0 n.

(** [l[i]], negative indices counting from the end. *)
Definition list_index {A} (l : list A) (i : Z) : outcome A :=
  let j := if (i <? 0)%Z then (i + Z.of_nat (length l))%Z else i in
  if (j <? 0)%Z then Raise IndexError
  else match l !! Z.to_nat j with
       | Some x => Ret x
       | None => Raise IndexError
       end.

(** Insertion-ordered dictionaries with string keys. *)
Definition dict (V : Type) : Type := list (string * V).

Fixpoint dict_get {V} (d : dict V) (k : string) : option V :=
  match d with
  | [] => None
  | (k', v) :: d' => if String.eqb k' k then Some v else dict_get d' k
  end.

(** [d[k] = v]: overwrite in place, or append a new key. *)
Fixpoint dict_set {V} (d : dict V) (k : string) (v : V) : dict V :=
  match d with
  | [] => [(k, v)]
  | (k', v') :: d' =>
      if String.eqb k' k then (k', v) :: d' else (k', v') :: dict_set d' k v
  end.

(** [d[k]] *)
Definition dict_index {V} (d : dict V) (k : string) : outcome V :=
  match dict_get d k with
  | Some v => Ret v
  | None => Raise KeyError
  end.

Definition dict_keys {V} (d : dict V) : list string := d.*1.
Definition dict_values {V} (d : dict V) : list V := d.*2.

(** [sum(xs)] *)
Definition py_sum (xs : list float) : float := foldl Qcplus 0%Qc xs.

(** ** Request model ([GTOGameState]) *)

(** A player is a [Dict[str, Any]]; the service reads three of its keys, each
    through [.get] with a default. *)
Record Player : Type := {
  holeCards : option string;
  invested : option Z;
  position : option string
}.

Record GTOGameState : Type := {
  street : string;
  pot : Z;
  community_cards : string;
  players : list Player;
  current_player : Z;
  history : list (list (string * string));
  is_terminal : bool
}.

(** ** [FastCFRSolver] *)

Record Node : Type := {
  regret_sum : dict float;
  strategy_sum : dict float;
  num_actions : Z
}.

Module SolveResult.
Record t : Type := {
  strategy : gmap string (dict float);
  exploitability : float;
  iterations : Z;
  convergence_history : list float
}.
End SolveResult.

Definition actions : list string := ["fold"; "call"; "raise"].

Definition _generate_info_set (game_state : GTOGameState) (player : Z) : outcome string :=
  player_data ← list_index (players game_state) player;
  Ret (street game_state +:+ "|" +:+ default "" (holeCards player_data) +:+ "|"
       +:+ community_cards game_state +:+ "|" +:+ pretty (pot game_state)).

Definition _get_strategy (node : Node) (actions : list string) : dict float :=
  let '(strategy, normalizing_sum) :=
    foldl (λ '(strategy, normalizing_sum) action,
             let regret := pymax 0 (default 0%Qc (dict_get (regret_sum node) action)) in
             (dict_set strategy action regret, (normalizing_sum + regret)%Qc))
          ([], 0%Qc) actions in
  if fltb 0 normalizing_sum then
    foldl (λ strategy action,
             match dict_get strategy action with
             | Some v => dict_set strategy action (v / normalizing_sum)%Qc
             | None => strategy
             end) strategy actions
  else
    foldl (λ strategy action, dict_set strategy action (1 / Z2Qc (Z.of_nat (length actions)))%Qc)
          strategy actions.

(** The heuristic pay-off of one action. *)
Definition action_util (game_state : GTOGameState) (action : string) : outcome float :=
  if String.eqb action "fold" then Ret 0%Qc
  else if String.eqb action "call" then p ← float_of_int (pot game_state); Ret (p * f0_4)%Qc
  else p ← float_of_int (pot game_state); Ret (p * f0_6)%Qc.

Definition _cfr_iteration (game_state : GTOGameState) (player : Z)
    (reach_prob : list float) (sampling_prob : float) (node_map : gmap string Node)
    : outcome (float * gmap string Node) :=
  info_set ← _generate_info_set game_state player;
  let node_map :=
    match node_map !! info_set with
    | Some _ => node_map
    | None => <[info_set := {| regret_sum := []; strategy_sum := []; num_actions := 3 |}]> node_map
    end in
  node ← from_option Ret (Raise KeyError) (node_map !! info_set);
  let strategy := _get_strategy node actions in
  '(util, node_util) ←
    for_each actions ([], 0%Qc) (λ '(util, node_util) action,
      u ← action_util game_state action;
      s ← dict_index strategy action;
      Ret (dict_set util action u, (node_util + s * u)%Qc));
  regret_sum' ←
    for_each actions (regret_sum node) (λ regret_sum action,
      u ← dict_index util action;
      let regret := (u - node_util)%Qc in
      let regret_sum :=
        match dict_get regret_sum action with
        | Some _ => regret_sum
        | None => dict_set regret_sum action 0%Qc
        end in
      r ← dict_index regret_sum action;
      reach ← list_index reach_prob player;
      Ret (dict_set regret_sum action (r + regret * reach)%Qc));
  strategy_sum' ←
    for_each actions (strategy_sum node) (λ strategy_sum action,
      let strategy_sum :=
        match dict_get strategy_sum action with
        | Some _ => strategy_sum
        | None => dict_set strategy_sum action 0%Qc
        end in
      acc ← dict_index strategy_sum action;
      s ← dict_index strategy action;
      reach ← list_index reach_prob player;
      Ret (dict_set strategy_sum action (acc + s * reach)%Qc));
  Ret (node_util,
       <[info_set := {| regret_sum := regret_sum'; strategy_sum := strategy_sum';
                        num_actions := num_actions node |}]> node_map).

Definition average_of_node (node : Node) : dict float :=
  let normalizing_sum := py_sum (dict_values (strategy_sum node)) in
  if fltb 0 normalizing_sum then
    foldl (λ strategy '(action, sum_val), dict_set strategy action (sum_val / normalizing_sum)%Qc)
          [] (strategy_sum node)
  else
    foldl (λ strategy action, dict_set strategy action (1 / Z2Qc (num_actions node))%Qc)
          [] ["fold"; "call"; "raise"].

Definition _get_average_strategy (node_map : gmap string Node) : gmap string (dict float) :=
  average_of_node <$> node_map.

Definition _calculate_exploitability (node_map : gmap string Node) : float :=
  let '(total_regret, node_count) :=
    map_fold (λ _ node acc,
                foldl (λ '(total_regret, node_count) regret,
                         ((total_regret + Qcabs regret)%Qc, (node_count + 1)%Z))
                      acc (dict_values (regret_sum node)))
             (0%Qc, 0%Z) node_map in
  if (0 <? node_count)%Z then (total_regret / Z2Qc (Z.max 1 node_count))%Qc else 0%Qc.

(** One pass of [for player in range(len(game_state['players']))]. *)
Definition cfr_players_pass (game_state : GTOGameState) (node_map : gmap string Node)
    : outcome (gmap string Node) :=
  let n := Z.of_nat (length (players game_state)) in
  for_each (py_range n) node_map (λ node_map player,
    '(_, node_map) ← _cfr_iteration game_state player (replicate (Z.to_nat n) 1%Qc) 1%Qc node_map;
    Ret node_map).

(** The loop [for iteration in range(iterations)] with its [break].  The state
    is the value [iteration] is bound to (none before the first pass), the
    node table and the exploitability samples. *)
Fixpoint cfr_loop (game_state : GTOGameState) (its : list Z) (bound : option Z)
    (node_map : gmap string Node) (exploitabilities : list float)
    : outcome (option Z * gmap string Node * list float) :=
  match its with
  | [] => Ret (bound, node_map, exploitabilities)
  | iteration :: its' =>
      node_map ← cfr_players_pass game_state node_map;
      if (iteration `mod` 100 =? 0)%Z then
        let exploitability := _calculate_exploitability node_map in
        let exploitabilities := exploitabilities ++ [exploitability] in
        if fltb exploitability f0_001
        then Ret (Some iteration, node_map, exploitabilities)
        else cfr_loop game_state its' (Some iteration) node_map exploitabilities
      else cfr_loop game_state its' (Some iteration) node_map exploitabilities
  end.

(** [solve_strategy]: the table is cleared first, so the result does not depend
    on what an earlier solve left in the solver. *)
Definition solve_strategy (game_state : GTOGameState) (iterations : Z)
    : outcome SolveResult.t :=
  '(bound, node_map, exploitabilities) ←
    cfr_loop game_state (py_range iterations) None ∅ [];
  let strategy := _get_average_strategy node_map in
  let final_exploitability := List.last exploitabilities 0%Qc in
  match bound with
  | Some iteration =>
      Ret {| SolveResult.strategy := strategy;
             SolveResult.exploitability := final_exploitability;
             SolveResult.iterations := (iteration + 1)%Z;
             SolveResult.convergence_history := exploitabilities |}
  | None => Raise UnboundLocalError
  end.

(** ** Analysis helpers *)

(** [sub in s] *)
Fixpoint str_contains (s sub : string) : bool :=
  String.prefix sub s ||
  match s with
  | EmptyString => false
  | String _ s' => str_contains s' sub
  end.

Definition f0_9 : float := Q2Qc (9 # 10).
Definition f0_7 : float := Q2Qc (7 # 10).
Definition f0_5 : float := Q2Qc (1 # 2).
Definition f0_3 : float := Q2Qc (3 # 10).
Definition f0_1 : float := Q2Qc (1 # 10).
Definition f1_2 : float := Q2Qc (6 # 5).

Definition calculate_hand_strength (hole_cards community_cards : string) : float :=
  if String.eqb hole_cards "" then f0_5
  else
    let premium_hands := ["AA"; "KK"; "QQ"; "AKs"; "AKo"] in
    let strong_hands := ["JJ"; "TT"; "AQs"; "AQo"; "AJs"; "KQs"] in
    let playable_hands := ["99"; "88"; "77"; "AJo"; "ATs"; "KJs"; "QJs"] in
    if existsb (str_contains hole_cards) premium_hands then f0_9
    else if existsb (str_contains hole_cards) strong_hands then f0_7
    else if existsb (str_contains hole_cards) playable_hands then f0_5
    else f0_3.

(** [a / b] on two [int]s: the exact quotient, [ZeroDivisionError] on a zero
    divisor, [OverflowError] when the quotient leaves the [float] range. *)
Definition int_truediv (a b : Z) : outcome float :=
  if (b =? 0)%Z then Raise ZeroDivisionError
  else
    let q := (Z2Qc a / Z2Qc b)%Qc in
    if fltb (Qcabs q) (Z2Qc float_overflow_bound) then Ret q else Raise OverflowError.

Definition calculate_pot_odds (pot call_amount : Z) : outcome float :=
  if (call_amount =? 0)%Z then Ret 0%Qc
  else int_truediv call_amount (pot + call_amount).

Definition calculate_equity (hole_cards community_cards : string) : float :=
  let hand_strength := calculate_hand_strength hole_cards community_cards in
  pymin f0_9 (pymax f0_1 hand_strength).

(** [max(xs)] over a non-empty list of [int]s. *)
Definition py_max_int (xs : list Z) : outcome Z :=
  match xs with
  | [] => Raise ValueError
  | x :: xs' => Ret (foldl (λ m y, if (m <? y)%Z then y else m) x xs')
  end.

(** The bare [except:] turns every failure into a call amount of 0. *)
Definition get_call_amount (game_state : GTOGameState) : Z :=
  let attempt : outcome Z :=
    current_player ← list_index (players game_state) (current_player game_state);
    max_invested ← py_max_int ((λ player, default 0%Z (invested player)) <$> players game_state);
    let owed := (max_invested - default 0 (invested current_player))%Z in
    Ret (if (0 <? owed)%Z then owed else 0%Z) in
  match attempt with
  | Ret c => c
  | Raise _ => 0%Z
  end.

Definition count_drawouts (hole_cards community_cards : string) : Z := 0.

(** The reasoning templates; the call template interpolates the pot odds. *)
Inductive reasoning : Type :=
  | ValueRaise
  | SemiBluffRaise
  | PotOddsCall (pot_odds : float)
  | WeakFold
  | BalancedDecision.

Definition generate_reasoning (action : string) (hand_strength pot_odds : float) : reasoning :=
  if String.eqb action "raise" then
    if fltb f0_7 hand_strength then ValueRaise else SemiBluffRaise
  else if String.eqb action "call" then PotOddsCall pot_odds
  else if String.eqb action "fold" then WeakFold
  else BalancedDecision.

(** [max(d, key=d.get)]: the first key, in insertion order, of largest value. *)
Definition dict_argmax (d : dict float) : outcome string :=
  match d with
  | [] => Raise ValueError
  | (k, v) :: d' =>
      Ret (foldl (λ '(bk, bv) '(k', v'), if fltb bv v' then (k', v') else (bk, bv)) (k, v) d').1
  end.

(** [sorted(items, key=lambda x: x[1], reverse=True)]: stable, descending. *)
Fixpoint insert_desc (x : string * float) (l : list (string * float)) : list (string * float) :=
  match l with
  | [] => [x]
  | y :: l' => if fltb y.2 x.2 then x :: y :: l' else y :: insert_desc x l'
  end.

Definition sorted_desc (items : list (string * float)) : list (string * float) :=
  foldl (λ acc x, insert_desc x acc) [] items.

(** [int(x)]: truncation towards zero. *)
Definition py_int (x : float) : Z := (Qnum (this x) ÷ Z.pos (Qden (this x)))%Z.

(** [x * n] for a [float] and an [int]. *)
Definition float_mul_int (x : float) (n : Z) : outcome float :=
  p ← float_of_int n; Ret (x * p)%Qc.

(** ** Response models *)

Module GTOStrategy.
Record t : Type := {
  strategy : dict float;
  exploitability : float;
  iterations : Z;
  confidence : float;
  info_set : string
}.
End GTOStrategy.

Record Alternative : Type := {
  alt_action : string;
  alt_probability : float;
  ev_difference : float
}.

Module GTODecision.
Record t : Type := {
  action : string;
  amount : option Z;
  probability : float;
  alternatives : list Alternative;
  reasoning_text : reasoning;
  exploitability : float;
  confidence : float
}.
End GTODecision.

Record RiskAssessment : Type := {
  variance : float;
  drawouts : Z;
  bluff_catchers : list string
}.

Module GTOAnalysis.
Record t : Type := {
  decision : GTODecision.t;
  hand_strength : float;
  position : string;
  pot_odds : float;
  implied_odds : float;
  equity : float;
  expected_value : float;
  risk_assessment : RiskAssessment
}.
End GTOAnalysis.

Module TrainingProgress.
Record t : Type := {
  completed : Z;
  total : Z;
  current_exploitability : float;
  average_convergence_rate : float;
  estimated_time_remaining : Z
}.
End TrainingProgress.

(** The prior both endpoints fall back on when the key is not in the
    solver's strategy map. *)
Definition default_strategy : dict float :=
  [("fold", f0_33); ("call", f0_33); ("raise", f0_34)].

(** [max(0.0, min(1.0, 1.0 - exploitability))] *)
Definition confidence_of (exploitability : float) : float :=
  pymax 0 (pymin 1 (1 - exploitability)).

(** [compute_gto_strategy], from the solver's result to the response. *)
Definition strategy_response (game_state : GTOGameState) (result : SolveResult.t)
    : outcome GTOStrategy.t :=
  info_set ← _generate_info_set game_state (current_player game_state);
  let strategy_data := default default_strategy (SolveResult.strategy result !! info_set) in
  Ret {| GTOStrategy.strategy := strategy_data;
         GTOStrategy.exploitability := SolveResult.exploitability result;
         GTOStrategy.iterations := SolveResult.iterations result;
         GTOStrategy.confidence := confidence_of (SolveResult.exploitability result);
         GTOStrategy.info_set := info_set |}.

(** [get_gto_analysis], from the solver's result to the response. *)
Definition analysis_response (game_state : GTOGameState) (strategy_result : SolveResult.t)
    : outcome GTOAnalysis.t :=
  current_player' ← list_index (players game_state) (current_player game_state);
  info_set ← _generate_info_set game_state (current_player game_state);
  let player_strategy :=
    default default_strategy (SolveResult.strategy strategy_result !! info_set) in
  best_action ← dict_argmax player_strategy;
  best_probability ← dict_index player_strategy best_action;
  alternatives ←
    for_each (sorted_desc player_strategy) [] (λ alternatives '(action, prob),
      if String.eqb action best_action then Ret alternatives
      else
        ev ← float_mul_int (best_probability - prob) (pot game_state);
        Ret (alternatives ++ [{| alt_action := action; alt_probability := prob;
                                 ev_difference := ev |}]));
  let hole := default "" (holeCards current_player') in
  let hand_strength := calculate_hand_strength hole (community_cards game_state) in
  pot_odds ← calculate_pot_odds (pot game_state) (get_call_amount game_state);
  let equity := calculate_equity hole (community_cards game_state) in
  amount ←
    (if String.eqb best_action "raise" || String.eqb best_action "bet"
     then sized ← float_mul_int f0_75 (pot game_state); Ret (Some (py_int sized))
     else Ret None);
  let exploitability := SolveResult.exploitability strategy_result in
  let gto_decision :=
    {| GTODecision.action := best_action;
       GTODecision.amount := amount;
       GTODecision.probability := best_probability;
       GTODecision.alternatives := alternatives;
       GTODecision.reasoning_text := generate_reasoning best_action hand_strength pot_odds;
       GTODecision.exploitability := exploitability;
       GTODecision.confidence := confidence_of exploitability |} in
  expected_value ← float_mul_int equity (pot game_state);
  Ret {| GTOAnalysis.decision := gto_decision;
         GTOAnalysis.hand_strength := hand_strength;
         GTOAnalysis.position := default "BTN" (position current_player');
         GTOAnalysis.pot_odds := pot_odds;
         GTOAnalysis.implied_odds := (pot_odds * f1_2)%Qc;
         GTOAnalysis.equity := equity;
         GTOAnalysis.expected_value := expected_value;
         GTOAnalysis.risk_assessment :=
           {| variance := pymin 1 (exploitability * Z2Qc 10);
              drawouts := count_drawouts hole (community_cards game_state);
              bluff_catchers := [] |} |}.

(** ** The service: Redis, the log and the endpoints *)

(** What the service writes to Redis, before [json.dumps]. *)
Inductive redis_value : Type :=
  | StrategyJson (response : GTOStrategy.t)
  | BatchResultJson (strategy : gmap string (dict float)) (exploitability : float)
      (iterations : Z)
  | ProgressJson (progress : TrainingProgress.t).

(** The warnings and errors the service logs.  Its [logger.info] lines carry
    wall-clock timings and are left out. *)
Inductive log_event : Type :=
  | CFRSolveError (e : exn)
  | CacheReadFailed (e : exn)
  | StrategyError (e : exn)
  | AnalysisError (e : exn)
  | BatchStatusError (e : exn)
  | BatchBackgroundError (e : exn).

(** The process state around a request: the Redis client ([None] when the
    start-up connection failed) with each key's expiry time, the clock, and the
    log.  A connected client is assumed to answer. *)
Record World : Type := {
  redis_client : option (gmap string (Z * redis_value));
  now : Z;
  log : list log_event
}.

Definition service (A : Type) : Type := World → outcome A * World.

#[global] Instance service_ret : MRet service := λ A a w, (Ret a, w).
#[global] Instance service_bind : MBind service :=
  λ A B f m w, match m w with
               | (Ret a, w') => f a w'
               | (Raise e, w') => (Raise e, w')
               end.

Definition lift {A} (o : outcome A) : service A := λ w, (o, w).

(** [try: body except Exception as e: handler(e)] *)
Definition try_except {A} (body : service A) (handler : exn → service A) : service A :=
  λ w, match body w with
       | (Ret a, w') => (Ret a, w')
       | (Raise e, w') => handler e w'
       end.

Definition add_log (ev : log_event) (w : World) : World :=
  {| redis_client := redis_client w; now := now w; log := log w ++ [ev] |}.

Definition logger (ev : log_event) : service unit := λ w, (Ret tt, add_log ev w).

(** [if redis_client:] *)
Definition redis_connected : service bool :=
  λ w, (Ret (if redis_client w is Some _ then true else false), w).

Definition store_get (store : gmap string (Z * redis_value)) (clock : Z) (key : string)
    : option redis_value :=
  match store !! key with
  | Some (expires, v) => if (clock <? expires)%Z then Some v else None
  | None => None
  end.

Definition redis_get (key : string) : service (option redis_value) :=
  λ w, (Ret (match redis_client w with
             | Some store => store_get store (now w) key
             | None => None
             end), w).

Definition redis_setex (key : string) (ttl : Z) (v : redis_value) : service unit :=
  λ w, (Ret tt,
        {| redis_client :=
             match redis_client w with
             | Some store => Some (<[key := ((now w + ttl)%Z, v)]> store)
             | None => None
             end;
           now := now w; log := log w |}).

Fixpoint service_for_each {S A : Type} (l : list A) (s : S) (body : S → A → service S)
    : service S :=
  match l with
  | [] => mret s
  | x :: l' => s' ← body s x; service_for_each l' s' body
  end.

Inductive http_response (A : Type) : Type :=
  | Ok200 (body : A)
  | Error500 (detail : exn).
Arguments Ok200 {A} body.
Arguments Error500 {A} detail.

(** [cfr_solver.solve_strategy], with the error line its handler logs before
    it re-raises. *)
Definition cfr_solver_solve_strategy (game_state : GTOGameState) (iterations : Z)
    : service SolveResult.t :=
  try_except (lift (solve_strategy game_state iterations))
             (λ e, logger (CFRSolveError e);; lift (Raise e)).

Section Service.
(** [hash(str(game_state.dict()))] *)
Variable state_hash : GTOGameState → Z.

Definition strategy_cache_key (game_state : GTOGameState) : string :=
  "gto_strategy:" +:+ pretty (state_hash game_state).

Definition progress_key (batch_id : string) : string := "batch_progress:" +:+ batch_id.

(** The guarded cache write of [compute_gto_strategy]. *)
Definition cache_strategy (cache_key : string) (result : SolveResult.t)
    (response : GTOStrategy.t) : service unit :=
  connected ← redis_connected;
  if connected && fltb (SolveResult.exploitability result) f0_01
  then redis_setex cache_key 3600 (StrategyJson response)
  else mret tt.

Definition compute_gto_strategy (game_state : GTOGameState) (iterations : Z)
    : World → http_response GTOStrategy.t * World :=
  let cache_key := strategy_cache_key game_state in
  let body : service GTOStrategy.t :=
    connected ← redis_connected;
    cached ←
      (if connected : bool then
         try_except
           (cached_result ← redis_get cache_key;
            match cached_result with
            | Some (StrategyJson response) => mret (Some response)
            | Some _ => lift (Raise ValidationError)
            | None => mret None
            end)
           (λ e, logger (CacheReadFailed e);; mret None)
       else mret None);
    match cached with
    | Some response => mret response
    | None =>
        result ← cfr_solver_solve_strategy game_state iterations;
        response ← lift (strategy_response game_state result);
        cache_strategy cache_key result response;;
        mret response
    end in
  λ w, match body w with
       | (Ret response, w') => (Ok200 response, w')
       | (Raise e, w') => (Error500 e, add_log (StrategyError e) w')
       end.

Definition get_gto_analysis (game_state : GTOGameState) (iterations : Z)
    : World → http_response GTOAnalysis.t * World :=
  let body : service GTOAnalysis.t :=
    strategy_result ← cfr_solver_solve_strategy game_state iterations;
    lift (analysis_response game_state strategy_result) in
  λ w, match body w with
       | (Ret analysis, w') => (Ok200 analysis, w')
       | (Raise e, w') => (Error500 e, add_log (AnalysisError e) w')
       end.

(** The guarded cache write of [process_batch_background]. *)
Definition cache_batch_result (cache_results : bool) (scenario : GTOGameState)
    (result : SolveResult.t) : service unit :=
  connected ← redis_connected;
  if cache_results && connected && fltb (SolveResult.exploitability result) f0_01
  then redis_setex (strategy_cache_key scenario) 3600
         (BatchResultJson (SolveResult.strategy result) (SolveResult.exploitability result)
            (SolveResult.iterations result))
  else mret tt.

(** One turn of the scenario loop; the loop state is [completed] and
    [convergence_rates]. *)
Definition batch_scenario (batch_id : string) (total iterations : Z) (cache_results : bool)
    (st : Z * list float) (scenario : GTOGameState) : service (Z * list float) :=
  let '(completed, convergence_rates) := st in
  result ← cfr_solver_solve_strategy scenario iterations;
  let convergence_rates :=
    convergence_rates ++ [(1 - SolveResult.exploitability result)%Qc] in
  let completed := (completed + 1)%Z in
  connected ← redis_connected;
  (if connected : bool then
     redis_setex (progress_key batch_id) 600
       (ProgressJson
          {| TrainingProgress.completed := completed;
             TrainingProgress.total := total;
             TrainingProgress.current_exploitability := SolveResult.exploitability result;
             TrainingProgress.average_convergence_rate :=
               (py_sum convergence_rates / Z2Qc (Z.of_nat (length convergence_rates)))%Qc;
             TrainingProgress.estimated_time_remaining := ((total - completed) * 2)%Z |})
   else mret tt);;
  cache_batch_result cache_results scenario result;;
  mret (completed, convergence_rates).

Definition batch_loop (batch_id : string) (total iterations : Z) (cache_results : bool)
    (scenarios : list GTOGameState) (st : Z * list float) : service (Z * list float) :=
  service_for_each scenarios st (batch_scenario batch_id total iterations cache_results).

Definition process_batch_background (batch_id : string) (scenarios : list GTOGameState)
    (iterations : Z) (cache_results : bool) : World → World :=
  λ w, let total := Z.of_nat (length scenarios) in
       match batch_loop batch_id total iterations cache_results scenarios (0%Z, []) w with
       | (Ret _, w') => w'
       | (Raise e, w') => add_log (BatchBackgroundError e) w'
       end.

Definition default_progress : TrainingProgress.t :=
  {| TrainingProgress.completed := 0;
     TrainingProgress.total := 0;
     TrainingProgress.current_exploitability := 1;
     TrainingProgress.average_convergence_rate := 0;
     TrainingProgress.estimated_time_remaining := 0 |}.

Definition get_batch_status (batch_id : string)
    : World → http_response TrainingProgress.t * World :=
  let body : service TrainingProgress.t :=
    progress_data ← redis_get (progress_key batch_id);
    match progress_data with
    | Some (ProgressJson progress) => mret progress
    | Some _ => lift (Raise ValidationError)
    | None => mret default_progress
    end in
  λ w, match body w with
       | (Ret progress, w') => (Ok200 progress, w')
       | (Raise e, w') => (Error500 e, add_log (BatchStatusError e) w')
       end.
End Service.

(** ** Closed forms used by the proofs *)

Definition dict3 (x y z : float) : dict float := [("fold", x); ("call", y); ("raise", z)].

Definition node3 (f c r sf sc sr : float) : Node :=
  {| regret_sum := dict3 f c r; strategy_sum := dict3 sf sc sr; num_actions := 3 |}.

Definition fresh_node : Node := {| regret_sum := []; strategy_sum := []; num_actions := 3 |}.

(** Regret matching on the three accumulated regrets. *)
Definition regret_matching (f c r : float) : float * float * float :=
  let n := (0 + pymax 0 f + pymax 0 c + pymax 0 r)%Qc in
  if fltb 0 n then ((pymax 0 f / n)%Qc, (pymax 0 c / n)%Qc, (pymax 0 r / n)%Qc)
  else ((1 / Z2Qc 3)%Qc, (1 / Z2Qc 3)%Qc, (1 / Z2Qc 3)%Qc).

Definition node_utility (p : float) (s : float * float * float) : float :=
  (0 + s.1.1 * 0 + s.1.2 * (p * f0_4) + s.2 * (p * f0_6))%Qc.

(** The node after one visit with pot [p] and reach probability [rp]. *)
Definition visit (p rp f c r sf sc sr : float) : Node :=
  let s := regret_matching f c r in
  let nu := node_utility p s in
  node3 (f + (0 - nu) * rp) (c + (p * f0_4 - nu) * rp) (r + (p * f0_6 - nu) * rp)
        (sf + s.1.1 * rp) (sc + s.1.2 * rp) (sr + s.2 * rp).

Definition entry (d : dict float) (k : string) : float := default 0%Qc (dict_get d k).

(** The same, reading the six sums off a node (a missing entry counts 0). *)
Definition visit_node (p rp : float) (node : Node) : Node :=
  visit p rp
    (entry (regret_sum node) "fold") (entry (regret_sum node) "call")
    (entry (regret_sum node) "raise")
    (entry (strategy_sum node) "fold") (entry (strategy_sum node) "call")
    (entry (strategy_sum node) "raise").

(** One visit of the node stored under [key]. *)
Definition touch (p : float) (nm : gmap string Node) (key : string) : gmap string Node :=
  <[key := visit_node p 1 (default fresh_node (nm !! key))]> nm.

(** The key of a player's info set. *)
Definition info_key (gs : GTOGameState) (pd : Player) : string :=
  street gs +:+ "|" +:+ default "" (holeCards pd) +:+ "|"
  +:+ community_cards gs +:+ "|" +:+ pretty (pot gs).

Definition player_keys (gs : GTOGameState) : list string := info_key gs <$> players gs.

(** Every stored node carries the three actions, in the order of [actions]. *)
Definition shaped (node : Node) : Prop :=
  ∃ f c r sf sc sr, node = node3 f c r sf sc sr.

Definition table_shaped (nm : gmap string Node) : Prop :=
  ∀ key node, nm !! key = Some node → shaped node.

(** A distribution over the three actions. *)
Definition is_distribution (d : dict float) : Prop :=
  dict_keys d = actions ∧
  Forall (λ v, (0 <= v)%Qc) (dict_values d) ∧
  py_sum (dict_values d) = 1%Qc.

Definition with_terminal (b : bool) (gs : GTOGameState) : GTOGameState :=
  {| street := street gs; pot := pot gs; community_cards := community_cards gs;
     players := players gs; current_player := current_player gs;
     history := history gs; is_terminal := b |}.

(** One pass over the players, and the iteration loop, on a table of shaped
    nodes with the pot already converted to [float]. *)
Definition pass (p : float) (keys : list string) (nm : gmap string Node) : gmap string Node :=
  foldl (touch p) nm keys.

Fixpoint loop (p : float) (keys : list string) (its : list Z) (bound : option Z)
    (nm : gmap string Node) (exploitabilities : list float)
    : option Z * gmap string Node * list float :=
  match its with
  | [] => (bound, nm, exploitabilities)
  | iteration :: its' =>
      let nm := pass p keys nm in
      if (iteration `mod` 100 =? 0)%Z then
        let exploitability := _calculate_exploitability nm in
        let exploitabilities := exploitabilities ++ [exploitability] in
        if fltb exploitability f0_001
        then (Some iteration, nm, exploitabilities)
        else loop p keys its' (Some iteration) nm exploitabilities
      else loop p keys its' (Some iteration) nm exploitabilities
  end.

(** The result [solve_strategy] builds from the loop's final state. *)
Definition result_of (st : option Z * gmap string Node * list float) : outcome SolveResult.t :=
  match st.1.1 with
  | Some iteration =>
      Ret {| SolveResult.strategy := _get_average_strategy st.1.2;
             SolveResult.exploitability := List.last st.2 0%Qc;
             SolveResult.iterations := (iteration + 1)%Z;
             SolveResult.convergence_history := st.2 |}
  | None => Raise UnboundLocalError
  end.


Definition f1e_9 : float := Q2Qc (1 # 1000000000).

(** The strategy sums of a stored node are non-negative and not all zero. *)
Definition accumulated (node : Node) : Prop :=
  ∃ f c r sf sc sr, node = node3 f c r sf sc sr ∧
    (0 <= sf)%Qc ∧ (0 <= sc)%Qc ∧ (0 <= sr)%Qc ∧ (0 < sf + sc + sr)%Qc.

Definition table_accumulated (nm : gmap string Node) : Prop :=
  ∀ key node, nm !! key = Some node → accumulated node.

Definition third : float := Q2Qc (1 # 3).



(** The running pair [(total_regret, node_count)] of
    [_calculate_exploitability]. *)
Definition regret_totals (nm : gmap string Node) : float * Z :=
  map_fold (λ _ node acc,
              foldl (λ '(total_regret, node_count) regret,
                       ((total_regret + Qcabs regret)%Qc, (node_count + 1)%Z))
                    acc (dict_values (regret_sum node)))
           (0%Qc, 0%Z) nm.

(** With a positive pot [p], a node is in one of two phases: after its first
    visit, or, from the second visit on, locked on raise.  [m] is a lower
    bound on the number of visits. *)
Definition hot (p : float) (m : Z) (node : Node) : Prop :=
  ∃ f c r sf sc sr, node = node3 f c r sf sc sr ∧
    (((m <= 1)%Z ∧
      f = (- (p / Z2Qc 3))%Qc ∧ c = (p / Z2Qc 15)%Qc ∧ r = (Z2Qc 4 * p / Z2Qc 15)%Qc ∧
      sf = third ∧ sc = third ∧ sr = third) ∨
     ((f <= 0)%Qc ∧ (c <= 0)%Qc ∧ r = (Z2Qc 23 * p / Z2Qc 75)%Qc ∧
      sf = third ∧ sc = Q2Qc (8 # 15) ∧
      (Q2Qc (17 # 15) <= sr)%Qc ∧ (Z2Qc m - Q2Qc (13 # 15) <= sr)%Qc)).

Definition table_hot (p : float) (nm : gmap string Node) : Prop :=
  ∀ key node, nm !! key = Some node → hot p 0 node.

Definition visited (p : float) (m : Z) (key : string) (nm : gmap string Node) : Prop :=
  ∃ node, nm !! key = Some node ∧ hot p m node.

(** Sample requests. *)
Definition seat (cards : string) (paid : Z) (pos : string) : Player :=
  {| holeCards := Some cards; invested := Some paid; position := Some pos |}.

(** Pocket aces before the flop, nobody has acted yet. *)
Definition aces_preflop (p : Z) : GTOGameState :=
  {| street := "preflop"; pot := p; community_cards := "";
     players := [seat "AsAh" 0 "BTN"; seat "XX" 0 "BB"];
     current_player := 0; history := []; is_terminal := false |}.

Definition heads_up (p : Z) (terminal : bool) : GTOGameState :=
  {| street := "flop"; pot := p; community_cards := "AhKd7c";
     players := [seat "AsKs" 10 "BTN"];
     current_player := 0; history := []; is_terminal := terminal |}.

(** Later samples never exceed earlier ones. *)
Definition non_increasing (l : list float) : Prop :=
  ∀ i j x y, (i < j)%nat → l !! i = Some x → l !! j = Some y → (y <= x)%Qc.

(** What [_generate_info_set] reads of a request. *)
Definition key_inputs (gs : GTOGameState) (player : Z)
    : outcome (string * option string * string * Z) :=
  player_data ← list_index (players gs) player;
  Ret (street gs, holeCards player_data, community_cards gs, pot gs).

(** The position [players[player]] resolves to. *)
Definition resolve_index (gs : GTOGameState) (player : Z) : Z :=
  if (player <? 0)%Z then (player + Z.of_nat (length (players gs)))%Z else player.

(** Deal other hole cards to the player at position [i]. *)
Definition deal (i : nat) (cards : option string) (gs : GTOGameState) : GTOGameState :=
  {| street := street gs; pot := pot gs; community_cards := community_cards gs;
     players :=
       alter (λ pd, {| holeCards := cards; invested := invested pd;
                       position := position pd |}) i (players gs);
     current_player := current_player gs;
     history := history gs; is_terminal := is_terminal gs |}.

(** The clock moves on. *)
Definition tick (dt : Z) (w : World) : World :=
  {| redis_client := redis_client w; now := (now w + dt)%Z; log := log w |}.

Definition quiet_world : World := {| redis_client := Some ∅; now := 0; log := [] |}.

(** A stand-in for Python's [hash] in the examples. *)
Definition sample_hash (gs : GTOGameState) : Z := Z.of_nat (String.length (street gs)).

(** Results whose strategy map misses, and holds, the key of [aces_preflop 3]. *)
Definition result_without_key : SolveResult.t :=
  {| SolveResult.strategy := ∅;
     SolveResult.exploitability := f0_5;
     SolveResult.iterations := 1;
     SolveResult.convergence_history := [f0_5] |}.


(** ** Further notions used by the properties below *)

(** With a nonzero pot [p] the regret of the best action (raise for a positive
    pot, fold for a negative one) is set by the first visit and never
    decreases afterwards. *)
Definition biased (p : float) (node : Node) : Prop :=
  ∃ f c r sf sc sr, node = node3 f c r sf sc sr ∧
    ((0 < p)%Qc → (Z2Qc 4 * p / Z2Qc 15 <= r)%Qc) ∧
    ((p < 0)%Qc → (- (p / Z2Qc 3) <= f)%Qc).

Definition table_biased (p : float) (nm : gmap string Node) : Prop :=
  ∀ key node, nm !! key = Some node → biased p node.

(** The floor every exploitability sample stays above. *)
Definition regret_floor (p : float) : float := (Z2Qc 4 * Qcabs p / Z2Qc 45)%Qc.

(** The progress record of [batch_id] held by the store: its expiry and two
    counters. *)
Definition progress_recorded (store : gmap string (Z * redis_value)) (expires : Z)
    (batch_id : string) (completed total : Z) : Prop :=
  ∃ progress,
    store !! progress_key batch_id = Some (expires, ProgressJson progress) ∧
    TrainingProgress.completed progress = completed ∧
    TrainingProgress.total progress = total ∧
    TrainingProgress.estimated_time_remaining progress = ((total - completed) * 2)%Z.

(** Two cards in rank-suit notation, as in ["AsAc"]. *)
Definition ranks : list Ascii.ascii := String.list_ascii_of_string "23456789TJQKA".
Definition suits : list Ascii.ascii := String.list_ascii_of_string "shdc".
Definition two_cards (r1 s1 r2 s2 : Ascii.ascii) : string :=
  String r1 (String s1 (String r2 (String s2 EmptyString))).

(** The hand classes [calculate_hand_strength] looks for. *)
Definition hand_classes : list string :=
  ["AA"; "KK"; "QQ"; "AKs"; "AKo"; "JJ"; "TT"; "AQs"; "AQo"; "AJs"; "KQs";
   "99"; "88"; "77"; "AJo"; "ATs"; "KJs"; "QJs"].


(** * Arithmetic on [float] *)

Lemma fltb_true (x y : float) : fltb x y = true ↔ (x < y)%Qc.
Proof. unfold fltb. apply bool_decide_eq_true. Qed.

Lemma fltb_false (x y : float) : fltb x y = false ↔ (y <= x)%Qc.
Proof.
  unfold fltb. rewrite bool_decide_eq_false. split.
  - apply Qcnot_lt_le.
  - apply Qcle_not_lt.
Qed.

Lemma Qc_eq_Qeq (a b : Qc) : a = b → (this a == this b)%Q.
Proof. intros ->. reflexivity. Qed.

(** Push an order or equality goal on [Qc] down to [Q], where [lra] works. *)
Ltac qc_unfold :=
  unfold f0_4, f0_6, f0_001, f0_01, f0_33, f0_34, f0_75, f0_9, f0_7, f0_5, f0_3, f0_1,
    f1_2, f1e_9, third, Z2Qc, id in *;
  repeat match goal with
         | H : @eq Qc ?a ?b |- _ => apply Qc_eq_Qeq in H
         | H : @eq float ?a ?b |- _ => apply Qc_eq_Qeq in H
         | |- @eq Qc _ _ => apply Qc_is_canon
         | |- @eq float _ _ => apply Qc_is_canon
         | |- ¬ @eq Qc _ _ => let E := fresh in intros E
         | |- ¬ @eq float _ _ => let E := fresh in intros E
         end;
  unfold Qcdiv, Qcminus in *;
  unfold Qclt, Qcle, Qcplus, Qcopp, Qcmult, Qcinv, Q2Qc in *;
  cbn [this] in *;
  rewrite ?Qred_correct in *;
  unfold inject_Z, Qdiv in *;
  repeat match goal with
         | |- context [Qinv (Qmake (Zpos ?a) ?b)] =>
             let v := eval vm_compute in (Qinv (Qmake (Zpos a) b)) in
             change (Qinv (Qmake (Zpos a) b)) with v
         | H : context [Qinv (Qmake (Zpos ?a) ?b)] |- _ =>
             let v := eval vm_compute in (Qinv (Qmake (Zpos a) b)) in
             change (Qinv (Qmake (Zpos a) b)) with v in H
         end.

Ltac qc_lra := qc_unfold; first [lra | reflexivity | by vm_compute].

Ltac fltb_cases :=
  repeat match goal with
         | |- context [fltb ?x ?y] =>
             let E := fresh "E" in
             destruct (fltb x y) eqn:E;
             [apply fltb_true in E | apply fltb_false in E]
         | H : context [fltb ?x ?y] |- _ =>
             let E := fresh "E" in
             destruct (fltb x y) eqn:E;
             [apply fltb_true in E | apply fltb_false in E]
         end.

Lemma pymax0_nonneg (x : float) : (0 <= pymax 0 x)%Qc.
Proof. unfold pymax. fltb_cases; qc_lra. Qed.

Lemma pymax0_pos (x : float) : (0 < x)%Qc → pymax 0 x = x.
Proof. intros. unfold pymax. fltb_cases; [done | qc_lra]. Qed.

Lemma pymax0_nonpos (x : float) : (x <= 0)%Qc → pymax 0 x = 0%Qc.
Proof. intros. unfold pymax. fltb_cases; [qc_lra | done]. Qed.

(** Regret matching always yields a distribution. *)
Lemma regret_matching_distribution f c r :
  let s := regret_matching f c r in
  (0 <= s.1.1)%Qc ∧ (0 <= s.1.2)%Qc ∧ (0 <= s.2)%Qc ∧ (s.1.1 + s.1.2 + s.2 = 1)%Qc.
Proof.
  unfold regret_matching.
  pose proof (pymax0_nonneg f) as Hf. pose proof (pymax0_nonneg c) as Hc.
  pose proof (pymax0_nonneg r) as Hr.
  set (a := pymax 0 f) in *. set (b := pymax 0 c) in *. set (d := pymax 0 r) in *.
  clearbody a b d.
  destruct (fltb 0 (0 + a + b + d)) eqn:E; cbn [fst snd].
  - apply fltb_true in E.
    assert (Hn : (0 + a + b + d)%Qc ≠ 0%Qc) by qc_lra.
    assert (Hinv : (0 < / (0 + a + b + d))%Qc).
    { apply Qcinv_pos. done. }
    repeat split.
    + unfold Qcdiv. apply Qcmult_nonneg_nonneg; [done | by apply Qclt_le_weak].
    + unfold Qcdiv. apply Qcmult_nonneg_nonneg; [done | by apply Qclt_le_weak].
    + unfold Qcdiv. apply Qcmult_nonneg_nonneg; [done | by apply Qclt_le_weak].
    + field. qc_lra.
  - repeat split; try (by vm_compute). apply Qc_is_canon. reflexivity.
Qed.

(** * One visit of a node *)

Lemma bind_Ret {A B} (x : A) (k : A → outcome B) : (Ret x ≫= k) = k x.
Proof. reflexivity. Qed.

Lemma get_strategy_node3 f c r sf sc sr :
  _get_strategy (node3 f c r sf sc sr) actions =
    dict3 (regret_matching f c r).1.1 (regret_matching f c r).1.2 (regret_matching f c r).2.
Proof.
  unfold _get_strategy, regret_matching, actions, node3, dict3. cbn.
  destruct (fltb 0 _); reflexivity.
Qed.

Lemma get_strategy_fresh :
  _get_strategy fresh_node actions =
    dict3 (regret_matching 0 0 0).1.1 (regret_matching 0 0 0).1.2 (regret_matching 0 0 0).2.
Proof. reflexivity. Qed.

Lemma util_loop gs p (strategy : dict float) s :
  float_of_int (pot gs) = Ret p →
  strategy = dict3 s.1.1 s.1.2 s.2 →
  for_each actions ([], 0%Qc)
    (λ '(util, node_util) action,
       u ← action_util gs action;
       s ← dict_index strategy action;
       Ret (dict_set util action u, (node_util + s * u)%Qc)) =
  Ret (dict3 0 (p * f0_4) (p * f0_6), node_utility p s).
Proof.
  intros Hp ->. unfold actions, action_util, for_each.
  cbn. rewrite Hp. reflexivity.
Qed.

Lemma regret_loop reach player rp (util : dict float) u_f u_c u_r nu (d : dict float) :
  list_index reach player = Ret rp →
  util = dict3 u_f u_c u_r →
  d = [] ∨ (∃ f c r, d = dict3 f c r) →
  for_each actions d
    (λ regret_sum action,
      u ← dict_index util action;
      r ← dict_index match dict_get regret_sum action with
                     | Some _ => regret_sum
                     | None => dict_set regret_sum action 0%Qc
                     end action;
      reach ← list_index reach player;
      Ret (dict_set match dict_get regret_sum action with
                    | Some _ => regret_sum
                    | None => dict_set regret_sum action 0%Qc
                    end action (r + (u - nu) * reach)%Qc)) =
  Ret (dict3 (entry d "fold" + (u_f - nu) * rp) (entry d "call" + (u_c - nu) * rp)
             (entry d "raise" + (u_r - nu) * rp)).
Proof.
  intros Hrp -> [-> | (f & c & r & ->)];
    unfold actions, for_each; cbn; rewrite Hrp; reflexivity.
Qed.

Lemma strategy_loop reach player rp (strategy : dict float) s_f s_c s_r (d : dict float) :
  list_index reach player = Ret rp →
  strategy = dict3 s_f s_c s_r →
  d = [] ∨ (∃ f c r, d = dict3 f c r) →
  for_each actions d
    (λ strategy_sum action,
      acc ← dict_index match dict_get strategy_sum action with
                       | Some _ => strategy_sum
                       | None => dict_set strategy_sum action 0%Qc
                       end action;
      s ← dict_index strategy action;
      reach ← list_index reach player;
      Ret (dict_set match dict_get strategy_sum action with
                    | Some _ => strategy_sum
                    | None => dict_set strategy_sum action 0%Qc
                    end action (acc + s * reach)%Qc)) =
  Ret (dict3 (entry d "fold" + s_f * rp) (entry d "call" + s_c * rp)
             (entry d "raise" + s_r * rp)).
Proof.
  intros Hrp -> [-> | (f & c & r & ->)];
    unfold actions, for_each; cbn; rewrite Hrp; reflexivity.
Qed.

Lemma get_strategy_entry node :
  node = fresh_node ∨ shaped node →
  _get_strategy node actions =
    let s := regret_matching (entry (regret_sum node) "fold") (entry (regret_sum node) "call")
               (entry (regret_sum node) "raise") in
    dict3 s.1.1 s.1.2 s.2.
Proof.
  intros [-> | (f & c & r & sf & sc & sr & ->)].
  - apply get_strategy_fresh.
  - apply get_strategy_node3.
Qed.

(** A visit through [_cfr_iteration] is [touch]: the table only ever holds
    shaped nodes, and a fresh node is visited as soon as it is created. *)
Lemma cfr_iteration_touch gs player p reach sp (nm : gmap string Node) key :
  _generate_info_set gs player = Ret key →
  float_of_int (pot gs) = Ret p →
  list_index reach player = Ret 1%Qc →
  table_shaped nm →
  ∃ nu, _cfr_iteration gs player reach sp nm = Ret (nu, touch p nm key).
Proof.
  intros Hkey Hp Hrp Hnm.
  set (node := default fresh_node (nm !! key)).
  assert (Hnode : node = fresh_node ∨ shaped node).
  { unfold node. destruct (nm !! key) eqn:E; [right; eauto | by left]. }
  assert (Hrs : regret_sum node = [] ∨ ∃ f c r, regret_sum node = dict3 f c r).
  { destruct Hnode as [-> | (f & c & r & sf & sc & sr & ->)]; [by left | right; eauto]. }
  assert (Hss : strategy_sum node = [] ∨ ∃ f c r, strategy_sum node = dict3 f c r).
  { destruct Hnode as [-> | (f & c & r & sf & sc & sr & ->)]; [by left | right; eauto]. }
  assert (Hna : num_actions node = 3%Z).
  { destruct Hnode as [-> | (f & c & r & sf & sc & sr & ->)]; done. }
  eexists. unfold _cfr_iteration. rewrite Hkey, bind_Ret.
  assert (Hlook : match nm !! key with
                  | Some _ => nm
                  | None => <[key := {| regret_sum := []; strategy_sum := []; num_actions := 3 |}]> nm
                  end !! key = Some node).
  { unfold node. destruct (nm !! key) eqn:E; [done | by rewrite lookup_insert_eq]. }
  cbv zeta. rewrite Hlook. cbv beta iota delta [from_option]. rewrite bind_Ret.
  rewrite (get_strategy_entry node Hnode). cbv zeta.
  erewrite util_loop by done. rewrite bind_Ret.
  erewrite regret_loop by done. rewrite bind_Ret.
  erewrite strategy_loop by done. rewrite bind_Ret.
  rewrite Hna. f_equal. f_equal. unfold touch. fold node.
  destruct (nm !! key) eqn:E; [reflexivity | ].
  rewrite insert_insert_eq. reflexivity.
Qed.

(** * One pass over the players *)

Lemma list_index_nat {A} (l : list A) (i : nat) x :
  l !! i = Some x → list_index l (Z.of_nat i) = Ret x.
Proof.
  intros H. unfold list_index.
  destruct (Z.ltb_spec (Z.of_nat i) 0); [lia |].
  destruct (Z.ltb_spec (Z.of_nat i) 0); [lia |].
  by rewrite Nat2Z.id, H.
Qed.

Lemma generate_info_set_nat gs (i : nat) pd :
  players gs !! i = Some pd → _generate_info_set gs (Z.of_nat i) = Ret (info_key gs pd).
Proof.
  intros H. unfold _generate_info_set. by rewrite (list_index_nat _ _ _ H).
Qed.

Lemma shaped_visit_node p rp node : shaped (visit_node p rp node).
Proof. unfold visit_node, visit, shaped. eauto 10. Qed.

Lemma table_shaped_empty : table_shaped ∅.
Proof. intros key node H. by rewrite lookup_empty in H. Qed.

Lemma table_shaped_touch p nm key : table_shaped nm → table_shaped (touch p nm key).
Proof.
  intros Hnm key' node. unfold touch. rewrite lookup_insert.
  case_decide; [intros [= <-]; apply shaped_visit_node | apply Hnm].
Qed.

Lemma table_shaped_pass p keys nm : table_shaped nm → table_shaped (foldl (touch p) nm keys).
Proof.
  revert nm. induction keys as [| key keys IH]; intros nm Hnm; [done |].
  cbn. apply IH. by apply table_shaped_touch.
Qed.

Lemma players_pass_from gs p pre suf nm :
  players gs = pre ++ suf →
  float_of_int (pot gs) = Ret p →
  table_shaped nm →
  for_each (seqZ (Z.of_nat (length pre)) (Z.of_nat (length suf))) nm
    (λ node_map player,
       '(_, node_map) ← _cfr_iteration gs player
                          (replicate (Z.to_nat (Z.of_nat (length (players gs)))) 1%Qc) 1%Qc
                          node_map;
       Ret node_map) =
  Ret (foldl (touch p) nm (info_key gs <$> suf)).
Proof.
  intros Hpl Hp. revert pre nm Hpl.
  induction suf as [| pd suf IH]; intros pre nm Hpl Hnm; [done |].
  rewrite length_cons, Nat2Z.inj_succ, seqZ_cons by lia.
  cbn [for_each fmap list_fmap foldl].
  assert (Hpd : players gs !! length pre = Some pd).
  { rewrite Hpl. by rewrite list_lookup_middle. }
  destruct (cfr_iteration_touch gs (Z.of_nat (length pre)) p
              (replicate (Z.to_nat (Z.of_nat (length (players gs)))) 1%Qc) 1%Qc nm
              (info_key gs pd)) as [nu Hnu].
  - by apply generate_info_set_nat.
  - done.
  - apply list_index_nat. apply lookup_replicate_2.
    rewrite Nat2Z.id, Hpl, length_app. cbn. lia.
  - done.
  - rewrite Hnu, !bind_Ret.
    replace (Z.succ (Z.of_nat (length pre))) with (Z.of_nat (length (pre ++ [pd])))
      by (rewrite length_app; cbn; lia).
    rewrite Z.pred_succ. apply IH.
    + by rewrite <- app_assoc.
    + by apply table_shaped_touch.
Qed.

Lemma players_pass_spec gs p nm :
  float_of_int (pot gs) = Ret p →
  table_shaped nm →
  cfr_players_pass gs nm = Ret (foldl (touch p) nm (player_keys gs)).
Proof.
  intros Hp Hnm. unfold cfr_players_pass, py_range, player_keys.
  apply (players_pass_from gs p [] (players gs) nm); done.
Qed.

Lemma players_pass_nobody gs nm :
  players gs = [] → cfr_players_pass gs nm = Ret nm.
Proof. intros H. unfold cfr_players_pass. by rewrite H. Qed.

(** * The iteration loop *)

Lemma table_shaped_pass' p keys nm : table_shaped nm → table_shaped (pass p keys nm).
Proof. apply table_shaped_pass. Qed.

Lemma cfr_loop_pure gs p its bound nm ex :
  float_of_int (pot gs) = Ret p →
  table_shaped nm →
  cfr_loop gs its bound nm ex = Ret (loop p (player_keys gs) its bound nm ex).
Proof.
  intros Hp. revert bound nm ex.
  induction its as [| iteration its IH]; intros bound nm ex Hnm; [done |].
  cbn [cfr_loop loop]. rewrite (players_pass_spec gs p nm Hp Hnm), bind_Ret.
  fold (pass p (player_keys gs) nm).
  pose proof (table_shaped_pass' p (player_keys gs) nm Hnm) as Hnm'.
  destruct (iteration `mod` 100 =? 0)%Z; [| by apply IH].
  cbv zeta. destruct (fltb _ f0_001); [done | by apply IH].
Qed.

Lemma cfr_loop_nobody gs its bound nm ex :
  players gs = [] →
  cfr_loop gs its bound nm ex = Ret (loop 0 [] its bound nm ex).
Proof.
  intros Hpl. revert bound nm ex.
  induction its as [| iteration its IH]; intros bound nm ex; [done |].
  cbn [cfr_loop loop]. rewrite (players_pass_nobody gs nm Hpl), bind_Ret.
  cbn [pass foldl].
  destruct (iteration `mod` 100 =? 0)%Z; [| by apply IH].
  cbv zeta. destruct (fltb _ f0_001); [done | by apply IH].
Qed.

Lemma cfr_iteration_overflow gs player reach sp (nm : gmap string Node) key e :
  _generate_info_set gs player = Ret key →
  float_of_int (pot gs) = Raise e →
  table_shaped nm →
  _cfr_iteration gs player reach sp nm = Raise e.
Proof.
  intros Hkey Hp Hnm.
  set (node := default fresh_node (nm !! key)).
  assert (Hnode : node = fresh_node ∨ shaped node).
  { unfold node. destruct (nm !! key) eqn:E; [right; eauto | by left]. }
  unfold _cfr_iteration. rewrite Hkey, bind_Ret.
  assert (Hlook : match nm !! key with
                  | Some _ => nm
                  | None => <[key := {| regret_sum := []; strategy_sum := []; num_actions := 3 |}]> nm
                  end !! key = Some node).
  { unfold node. destruct (nm !! key) eqn:E; [done | by rewrite lookup_insert_eq]. }
  cbv zeta. rewrite Hlook. cbv beta iota delta [from_option]. rewrite bind_Ret.
  rewrite (get_strategy_entry node Hnode). cbv zeta.
  unfold actions, for_each, action_util. cbn. rewrite Hp. reflexivity.
Qed.

Lemma players_pass_overflow gs e :
  players gs ≠ [] →
  float_of_int (pot gs) = Raise e →
  cfr_players_pass gs ∅ = Raise e.
Proof.
  intros Hpl Hp. unfold cfr_players_pass, py_range.
  destruct (players gs) as [| pd rest] eqn:E; [done |].
  rewrite length_cons, Nat2Z.inj_succ, seqZ_cons by lia.
  cbn [for_each].
  rewrite (cfr_iteration_overflow gs 0 _ _ ∅ (info_key gs pd) e); [done | | done |].
  - apply (generate_info_set_nat gs 0 pd). by rewrite E.
  - apply table_shaped_empty.
Qed.

(** What [solve_strategy] returns, by cases on the request. *)
Lemma solve_strategy_no_iteration gs n :
  (n <= 0)%Z → solve_strategy gs n = Raise UnboundLocalError.
Proof.
  intros Hn. unfold solve_strategy, py_range.
  rewrite seqZ_nil by lia. reflexivity.
Qed.

Lemma solve_strategy_overflow gs n e :
  (0 < n)%Z → players gs ≠ [] → float_of_int (pot gs) = Raise e →
  solve_strategy gs n = Raise e.
Proof.
  intros Hn Hpl Hp. unfold solve_strategy, py_range.
  rewrite seqZ_cons by lia. cbn [cfr_loop].
  by rewrite (players_pass_overflow gs e Hpl Hp).
Qed.

Lemma solve_strategy_pure gs p n :
  float_of_int (pot gs) = Ret p →
  solve_strategy gs n = result_of (loop p (player_keys gs) (py_range n) None ∅ []).
Proof.
  intros Hp. unfold solve_strategy.
  rewrite (cfr_loop_pure gs p _ _ _ _ Hp table_shaped_empty), bind_Ret.
  destruct (loop _ _ _ _ _ _) as [[b nm] ex]. reflexivity.
Qed.

Lemma solve_strategy_nobody gs n :
  players gs = [] →
  solve_strategy gs n = result_of (loop 0 [] (py_range n) None ∅ []).
Proof.
  intros Hpl. unfold solve_strategy.
  rewrite (cfr_loop_nobody gs _ _ _ _ Hpl), bind_Ret.
  destruct (loop _ _ _ _ _ _) as [[b nm] ex]. reflexivity.
Qed.

(** * Distributions *)

Lemma get_strategy_any node :
  _get_strategy node actions =
    let s := regret_matching (entry (regret_sum node) "fold") (entry (regret_sum node) "call")
               (entry (regret_sum node) "raise") in
    dict3 s.1.1 s.1.2 s.2.
Proof.
  unfold _get_strategy, regret_matching, actions, dict3, entry. cbn.
  destruct (fltb 0 _); reflexivity.
Qed.

Lemma dict3_distribution (a b c : float) :
  (0 <= a)%Qc → (0 <= b)%Qc → (0 <= c)%Qc → (a + b + c = 1)%Qc →
  is_distribution (dict3 a b c).
Proof.
  intros Ha Hb Hc Hs. unfold is_distribution, dict3. cbn.
  split; [reflexivity | split].
  - repeat constructor; done.
  - unfold py_sum. cbn. unfold float in *. rewrite <- Hs. ring.
Qed.

Lemma get_strategy_distribution node : is_distribution (_get_strategy node actions).
Proof.
  rewrite get_strategy_any. cbv zeta.
  destruct (regret_matching_distribution (entry (regret_sum node) "fold")
              (entry (regret_sum node) "call") (entry (regret_sum node) "raise"))
    as (Ha & Hb & Hc & Hs).
  by apply dict3_distribution.
Qed.

Lemma average_of_node3 f c r sf sc sr :
  (0 < sf + sc + sr)%Qc →
  average_of_node (node3 f c r sf sc sr) =
    dict3 (sf / (0 + sf + sc + sr)) (sc / (0 + sf + sc + sr)) (sr / (0 + sf + sc + sr)).
Proof.
  intros Hpos. unfold average_of_node, node3, py_sum. cbn.
  destruct (fltb 0 (0 + sf + sc + sr)) eqn:E; [reflexivity |].
  apply fltb_false in E. exfalso. qc_lra.
Qed.

Lemma average_distribution node : accumulated node → is_distribution (average_of_node node).
Proof.
  intros (f & c & r & sf & sc & sr & -> & Hf & Hc & Hr & Hpos).
  rewrite average_of_node3 by done.
  assert (Hn : (0 + sf + sc + sr)%Qc ≠ 0%Qc) by qc_lra.
  assert (Hinv : (0 < / (0 + sf + sc + sr))%Qc) by (apply Qcinv_pos; qc_lra).
  apply dict3_distribution.
  - unfold Qcdiv. apply Qcmult_nonneg_nonneg; [done | by apply Qclt_le_weak].
  - unfold Qcdiv. apply Qcmult_nonneg_nonneg; [done | by apply Qclt_le_weak].
  - unfold Qcdiv. apply Qcmult_nonneg_nonneg; [done | by apply Qclt_le_weak].
  - unfold float in *. field. qc_lra.
Qed.

Lemma entry_nonneg_sum (d : dict float) :
  d = [] ∨ (∃ a b c, d = dict3 a b c ∧ (0 <= a)%Qc ∧ (0 <= b)%Qc ∧ (0 <= c)%Qc) →
  (0 <= entry d "fold")%Qc ∧ (0 <= entry d "call")%Qc ∧ (0 <= entry d "raise")%Qc.
Proof.
  intros [-> | (a & b & c & -> & Ha & Hb & Hc)].
  - repeat split; apply Qcle_refl.
  - repeat split; assumption.
Qed.

Lemma accumulated_visit3 p f c r sf sc sr :
  (0 <= sf)%Qc → (0 <= sc)%Qc → (0 <= sr)%Qc →
  accumulated (visit p 1 f c r sf sc sr).
Proof.
  intros Hf Hc Hr. unfold visit.
  pose proof (regret_matching_distribution f c r) as Hd. cbv zeta in Hd.
  destruct (regret_matching f c r) as [[a b] d]. cbn [fst snd] in *.
  destruct Hd as (Ha & Hb & Hd & Hs).
  do 6 eexists. split; [reflexivity |].
  assert (Hsum : (sf + a * 1 + (sc + b * 1) + (sr + d * 1) = sf + sc + sr + (a + b + d))%Qc)
    by (unfold float in *; ring).
  rewrite Hsum, Hs. rewrite !Qcmult_1_r.
  repeat split; qc_lra.
Qed.

Lemma accumulated_visit p node :
  node = fresh_node ∨ accumulated node → accumulated (visit_node p 1 node).
Proof.
  intros Hnode.
  destruct (entry_nonneg_sum (strategy_sum node)) as (Hf & Hc & Hr).
  { destruct Hnode as [-> | (f & c & r & sf & sc & sr & -> & Hf & Hc & Hr & _)];
      [by left | right; eauto 10]. }
  unfold visit_node. apply accumulated_visit3; assumption.
Qed.

Lemma table_accumulated_shaped nm : table_accumulated nm → table_shaped nm.
Proof.
  intros H key node Hl. destruct (H key node Hl) as (f & c & r & sf & sc & sr & -> & _).
  unfold shaped. eauto 10.
Qed.

Lemma table_accumulated_touch p nm key :
  table_accumulated nm → table_accumulated (touch p nm key).
Proof.
  intros Hnm key' node. unfold touch. rewrite lookup_insert.
  case_decide; [| apply Hnm]. intros [= <-].
  apply accumulated_visit. destruct (nm !! key) eqn:E; [right; eauto | by left].
Qed.

Lemma table_accumulated_pass p keys nm :
  table_accumulated nm → table_accumulated (pass p keys nm).
Proof.
  unfold pass. revert nm. induction keys as [| key keys IH]; intros nm Hnm; [done |].
  cbn. apply IH. by apply table_accumulated_touch.
Qed.

(** An invariant of the table that every pass keeps holds of the final table. *)
Lemma loop_table_invariant (I : gmap string Node → Prop) p keys its bound nm ex :
  (∀ nm, I nm → I (pass p keys nm)) →
  I nm → I (loop p keys its bound nm ex).1.2.
Proof.
  intros Hpass. revert bound nm ex.
  induction its as [| iteration its IH]; intros bound nm ex Hnm; [done |].
  cbn [loop]. destruct (iteration `mod` 100 =? 0)%Z; [| by apply IH, Hpass].
  cbv zeta. destruct (fltb _ f0_001); [cbn; by apply Hpass | by apply IH, Hpass].
Qed.

Lemma float_of_int_cases z : float_of_int z = Ret (Z2Qc z) ∨ float_of_int z = Raise OverflowError.
Proof. unfold float_of_int. destruct (_ <? _)%Z; eauto. Qed.

(** The final state of the loop behind a successful solve. *)
Lemma solve_strategy_Ret gs n r :
  solve_strategy gs n = Ret r →
  ∃ p keys, (keys = [] ∨ (float_of_int (pot gs) = Ret p ∧ keys = player_keys gs)) ∧
            result_of (loop p keys (py_range n) None ∅ []) = Ret r.
Proof.
  intros Hsolve.
  destruct (float_of_int_cases (pot gs)) as [Hp | Hp].
  - rewrite (solve_strategy_pure gs _ n Hp) in Hsolve. eauto 10.
  - destruct (decide (players gs = [])) as [Hpl | Hpl].
    + rewrite (solve_strategy_nobody gs n Hpl) in Hsolve. eauto 10.
    + destruct (decide (0 < n)%Z) as [Hn | Hn].
      * by rewrite (solve_strategy_overflow gs n _ Hn Hpl Hp) in Hsolve.
      * by rewrite solve_strategy_no_iteration in Hsolve by lia.
Qed.

Lemma result_of_Ret st r :
  result_of st = Ret r →
  ∃ iteration, st.1.1 = Some iteration ∧
    SolveResult.strategy r = _get_average_strategy st.1.2 ∧
    SolveResult.exploitability r = List.last st.2 0%Qc ∧
    SolveResult.iterations r = (iteration + 1)%Z ∧
    SolveResult.convergence_history r = st.2.
Proof.
  unfold result_of. destruct st.1.1 as [iteration |]; [| done].
  intros [= <-]. eauto 10.
Qed.

Lemma solved_strategy_distribution gs n r key s :
  solve_strategy gs n = Ret r →
  SolveResult.strategy r !! key = Some s →
  is_distribution s.
Proof.
  intros Hsolve Hs.
  destruct (solve_strategy_Ret gs n r Hsolve) as (p & keys & _ & Hres).
  destruct (result_of_Ret _ _ Hres) as (iteration & _ & Hstrat & _).
  rewrite Hstrat in Hs. unfold _get_average_strategy in Hs.
  rewrite lookup_fmap in Hs.
  destruct ((loop p keys (py_range n) None ∅ []).1.2 !! key) as [node |] eqn:E; [| done].
  injection Hs as <-. apply average_distribution.
  eapply (loop_table_invariant table_accumulated); [| | exact E].
  - apply table_accumulated_pass.
  - intros k nd H. by rewrite lookup_empty in H.
Qed.

Lemma distribution_tolerance d :
  is_distribution d → (Qcabs (py_sum (dict_values d) - 1) <= f1e_9)%Qc.
Proof. intros (_ & _ & ->). by vm_compute. Qed.

(** C2.  Regret matching returns, for every node, a distribution over the three
    actions: no negative entry, and entries that sum to 1 (exactly, hence within
    1e-9); and so is every per-info-set entry of the averaged strategy a solve
    returns. *)
Theorem distributions_sum_to_one :
  (∀ node,
     is_distribution (_get_strategy node actions) ∧
     (Qcabs (py_sum (dict_values (_get_strategy node actions)) - 1) <= f1e_9)%Qc) ∧
  (∀ gs n r key s,
     solve_strategy gs n = Ret r →
     SolveResult.strategy r !! key = Some s →
     is_distribution s ∧ (Qcabs (py_sum (dict_values s) - 1) <= f1e_9)%Qc).
Proof.
  split.
  - intros node. pose proof (get_strategy_distribution node) as H.
    split; [done | by apply distribution_tolerance].
  - intros gs n r key s Hsolve Hs.
    pose proof (solved_strategy_distribution gs n r key s Hsolve Hs) as H.
    split; [done | by apply distribution_tolerance].
Qed.

Lemma distributions_sum_to_one_witness :
  ∃ r s, solve_strategy (aces_preflop 3) 2 = Ret r ∧
         SolveResult.strategy r !! "preflop|AsAh||3" = Some s ∧
         is_distribution s ∧ (Qcabs (py_sum (dict_values s) - 1) <= f1e_9)%Qc.
Proof.
  eexists _, _. split; [vm_compute; reflexivity |].
  split; [vm_compute; reflexivity |].
  eapply (proj2 distributions_sum_to_one (aces_preflop 3) 2%Z _ "preflop|AsAh||3");
    vm_compute; reflexivity.
Defined.

(** * An empty pot *)

Lemma calculate_exploitability_totals nm :
  _calculate_exploitability nm =
    if (0 <? (regret_totals nm).2)%Z
    then ((regret_totals nm).1 / Z2Qc (Z.max 1 (regret_totals nm).2))%Qc
    else 0%Qc.
Proof.
  unfold _calculate_exploitability. fold (regret_totals nm).
  destruct (regret_totals nm) as [t c]. reflexivity.
Qed.

Lemma regret_matching_zero : regret_matching 0 0 0 = (third, third, third).
Proof.
  unfold regret_matching.
  assert (E : fltb 0 (0 + pymax 0 0 + pymax 0 0 + pymax 0 0) = false) by reflexivity.
  rewrite E. repeat f_equal; apply Qc_is_canon; reflexivity.
Qed.










(** Every player's key is in the table after a pass. *)
Lemma touch_lookup p nm key key' :
  is_Some (nm !! key') ∨ key' = key → is_Some (touch p nm key !! key').
Proof.
  intros H. unfold touch. rewrite lookup_insert. case_decide; [eauto | ].
  destruct H as [H | H]; [done | congruence].
Qed.

Lemma pass_keeps p keys nm key : is_Some (nm !! key) → is_Some (pass p keys nm !! key).
Proof.
  unfold pass. revert nm. induction keys as [| k keys IH]; intros nm H; [done |].
  cbn. apply IH, touch_lookup. by left.
Qed.

Lemma pass_visits p keys nm key : key ∈ keys → is_Some (pass p keys nm !! key).
Proof.
  unfold pass. revert nm. induction keys as [| k keys IH]; intros nm H.
  - by apply elem_of_nil in H.
  - cbn. apply elem_of_cons in H as [-> | H].
    + apply (pass_keeps p keys), touch_lookup. by right.
    + by apply IH.
Qed.



Lemma py_range_pos n : (0 < n)%Z → py_range n = 0%Z :: seqZ 1 (n - 1).
Proof. intros H. unfold py_range. rewrite seqZ_cons by lia. f_equal. Qed.



(** * A positive pot *)

Lemma Z2Qc_add a b : Z2Qc (a + b) = (Z2Qc a + Z2Qc b)%Qc.
Proof.
  apply Qc_is_canon. unfold Z2Qc, Qcplus, Q2Qc. cbn [this].
  rewrite !Qred_correct. rewrite inject_Z_plus. reflexivity.
Qed.

Lemma Z2Qc_le a b : (a <= b)%Z → (Z2Qc a <= Z2Qc b)%Qc.
Proof.
  intros H. unfold Z2Qc, Qcle, Q2Qc. cbn [this]. rewrite !Qred_correct.
  by rewrite <- Zle_Qle.
Qed.

Lemma Z2Qc_lt a b : (a < b)%Z → (Z2Qc a < Z2Qc b)%Qc.
Proof.
  intros H. unfold Z2Qc, Qclt, Q2Qc. cbn [this]. rewrite !Qred_correct.
  by rewrite <- Zlt_Qlt.
Qed.

Lemma regret_matching_first p :
  (0 < p)%Qc →
  regret_matching (- (p / Z2Qc 3)) (p / Z2Qc 15) (Z2Qc 4 * p / Z2Qc 15) =
    (0%Qc, Q2Qc (1 # 5), Q2Qc (4 # 5)).
Proof.
  intros Hp. unfold regret_matching.
  rewrite (pymax0_nonpos (- (p / Z2Qc 3))) by qc_lra.
  rewrite (pymax0_pos (p / Z2Qc 15)) by qc_lra.
  rewrite (pymax0_pos (Z2Qc 4 * p / Z2Qc 15)) by qc_lra.
  assert (E : fltb 0 (0 + 0 + p / Z2Qc 15 + Z2Qc 4 * p / Z2Qc 15) = true)
    by (apply fltb_true; qc_lra).
  rewrite E.
  clear E. repeat f_equal.
  - unfold Qcdiv. apply Qcmult_0_l.
  - qc_unfold. field. lra.
  - qc_unfold. field. lra.
Qed.

Lemma regret_matching_locked f c r :
  (f <= 0)%Qc → (c <= 0)%Qc → (0 < r)%Qc → regret_matching f c r = (0%Qc, 0%Qc, 1%Qc).
Proof.
  intros Hf Hc Hr. unfold regret_matching.
  rewrite (pymax0_nonpos f), (pymax0_nonpos c), (pymax0_pos r) by assumption.
  assert (E : fltb 0 (0 + 0 + 0 + r) = true) by (apply fltb_true; qc_lra).
  rewrite E. clear E. repeat f_equal.
  - unfold Qcdiv. apply Qcmult_0_l.
  - unfold Qcdiv. apply Qcmult_0_l.
  - qc_unfold. field. lra.
Qed.

Lemma visit_node_node3 p rp f c r sf sc sr :
  visit_node p rp (node3 f c r sf sc sr) = visit p rp f c r sf sc sr.
Proof. reflexivity. Qed.

Lemma visit_node_fresh p rp : visit_node p rp fresh_node = visit p rp 0 0 0 0 0 0.
Proof. reflexivity. Qed.

Lemma hot_mono p m m' node : (m' <= m)%Z → hot p m node → hot p m' node.
Proof.
  intros Hm (f & c & r & sf & sc & sr & -> & H).
  do 6 eexists. split; [reflexivity |].
  destruct H as [(Hm1 & H) | (Hf & Hc & Hr & Hsf & Hsc & Hsr & Hcount)].
  - left. split; [lia | exact H].
  - right. repeat (split; [assumption |]).
    pose proof (Z2Qc_le m' m Hm) as Hle.
    set (x := Z2Qc m) in *. set (y := Z2Qc m') in *. clearbody x y. qc_lra.
Qed.

Lemma hot_fresh p : hot p 1 (visit_node p 1 fresh_node).
Proof.
  rewrite visit_node_fresh. unfold visit. rewrite regret_matching_zero.
  unfold node_utility. cbn [fst snd].
  do 6 eexists. split; [reflexivity |]. left.
  split; [lia |]. repeat split; qc_lra.
Qed.

Lemma hot_visit p m node :
  (0 < p)%Qc → hot p m node → hot p (m + 1) (visit_node p 1 node).
Proof.
  intros Hp (f & c & r & sf & sc & sr & -> & H).
  rewrite visit_node_node3. unfold visit.
  destruct H as [(Hm1 & -> & -> & -> & -> & -> & ->) | (Hf & Hc & -> & -> & -> & Hsr & Hcount)].
  - rewrite (regret_matching_first p Hp). unfold node_utility. cbn [fst snd].
    do 6 eexists. split; [reflexivity |]. right.
    pose proof (Z2Qc_le (m + 1) 2 ltac:(lia)) as Hle.
    set (x := Z2Qc (m + 1)) in *. clearbody x.
    repeat split; qc_lra.
  - rewrite (regret_matching_locked f c) by (assumption || qc_lra).
    unfold node_utility. cbn [fst snd].
    do 6 eexists. split; [reflexivity |]. right.
    rewrite Z2Qc_add. set (x := Z2Qc m) in *. clearbody x.
    repeat split; qc_lra.
Qed.

Lemma table_hot_empty p : table_hot p ∅.
Proof. intros key node H. by rewrite lookup_empty in H. Qed.

Lemma table_hot_touch p nm key :
  (0 < p)%Qc → table_hot p nm → table_hot p (touch p nm key).
Proof.
  intros Hp Hnm key' node. unfold touch. rewrite lookup_insert.
  case_decide; [| apply Hnm]. intros [= <-].
  destruct (nm !! key) as [node |] eqn:E; cbn [default].
  - apply (hot_mono p (0 + 1) 0); [lia |]. apply hot_visit; [done |]. by apply (Hnm key).
  - apply (hot_mono p 1 0); [lia |]. apply hot_fresh.
Qed.

Lemma table_hot_pass p keys nm :
  (0 < p)%Qc → table_hot p nm → table_hot p (pass p keys nm).
Proof.
  intros Hp. unfold pass. revert nm.
  induction keys as [| key keys IH]; intros nm Hnm; [done |].
  cbn. apply IH. by apply table_hot_touch.
Qed.

Lemma visited_touch_same p m nm key :
  (0 < p)%Qc → table_hot p nm → m = 0%Z ∨ visited p m key nm →
  visited p (m + 1) key (touch p nm key).
Proof.
  intros Hp Hnm Hm. unfold visited, touch. rewrite lookup_insert_eq.
  eexists. split; [reflexivity |].
  destruct Hm as [-> | (node & -> & Hhot)]; cbn [default].
  - destruct (nm !! key) as [node |] eqn:E; cbn [default].
    + apply hot_visit; [done |]. by apply (Hnm key).
    + apply hot_fresh.
  - by apply hot_visit.
Qed.

Lemma visited_touch_keep p m nm key key' :
  (0 < p)%Qc → visited p m key nm → visited p m key (touch p nm key').
Proof.
  intros Hp (node & Hl & Hhot). unfold visited, touch. rewrite lookup_insert.
  case_decide as Hk.
  - subst key'. rewrite Hl. cbn [default]. eexists. split; [reflexivity |].
    apply (hot_mono p (m + 1) m); [lia |]. by apply hot_visit.
  - eauto.
Qed.

Lemma visited_pass_keep p m keys nm key :
  (0 < p)%Qc → visited p m key nm → visited p m key (pass p keys nm).
Proof.
  intros Hp. unfold pass. revert nm.
  induction keys as [| k keys IH]; intros nm H; [done |].
  cbn. apply IH. by apply visited_touch_keep.
Qed.

Lemma visited_pass p m keys nm key :
  (0 < p)%Qc → table_hot p nm → key ∈ keys → m = 0%Z ∨ visited p m key nm →
  visited p (m + 1) key (pass p keys nm).
Proof.
  intros Hp. revert nm.
  induction keys as [| k keys IH]; intros nm Hnm Hin Hm.
  - by apply elem_of_nil in Hin.
  - change (pass p (k :: keys) nm) with (pass p keys (touch p nm k)).
    destruct (decide (key = k)) as [-> | Hne].
    + apply visited_pass_keep; [done |]. by apply visited_touch_same.
    + apply elem_of_cons in Hin as [-> | Hin]; [done |].
      apply IH; [by apply table_hot_touch | done |].
      destruct Hm as [-> | Hv]; [by left | right]. by apply visited_touch_keep.
Qed.

Lemma Qc_le_div (a b c : Qc) : (0 < c)%Qc → (a * c <= b)%Qc → (a <= b / c)%Qc.
Proof.
  intros Hc H. apply (Qcmult_le_mono_pos_r _ _ c Hc).
  replace (b / c * c)%Qc with b; [done |].
  field. intros ->. by apply (Qclt_not_eq _ _ Hc).
Qed.

(** From the third visit on, the averaged strategy puts at least 0.6 on raise. *)
Lemma hot_average p m node :
  (3 <= m)%Z → hot p m node →
  ∃ a b q, average_of_node node = dict3 a b q ∧ (f0_6 <= q)%Qc.
Proof.
  intros Hm (f & c & r & sf & sc & sr & -> & H).
  destruct H as [(Hm1 & _) | (Hf & Hc & -> & -> & -> & Hsr & Hcount)]; [lia |].
  pose proof (Z2Qc_le 3 m Hm) as Hle.
  set (x := Z2Qc m) in *. clearbody x.
  assert (Hsr' : (Q2Qc (32 # 15) <= sr)%Qc) by qc_lra.
  rewrite average_of_node3 by qc_lra.
  do 3 eexists. split; [reflexivity |].
  apply Qc_le_div; qc_lra.
Qed.

Lemma regret_totals_hot p nm :
  (0 < p)%Qc → table_hot p nm →
  (Z2Qc 4 * p / Z2Qc 45 * Z2Qc (regret_totals nm).2 <= (regret_totals nm).1)%Qc ∧
  (regret_totals nm).2 = (3 * Z.of_nat (size nm))%Z.
Proof.
  intros Hp. unfold regret_totals.
  apply (map_fold_weak_ind (λ r m, table_hot p m →
    (Z2Qc 4 * p / Z2Qc 45 * Z2Qc r.2 <= r.1)%Qc ∧ r.2 = (3 * Z.of_nat (size m))%Z)).
  - intros _. cbn [fst snd]. split; [qc_lra | by rewrite map_size_empty].
  - intros key node m [t n] Hfresh IH Hhot.
    destruct IH as [IHt IHn].
    { intros key' node' H'. apply (Hhot key' node').
      rewrite lookup_insert_ne; [done | congruence]. }
    destruct (Hhot key node) as (f & c & r & sf & sc & sr & -> & H);
      [by rewrite lookup_insert_eq |].
    cbn [fst snd] in *.
    change (foldl _ (t, n) (dict_values (regret_sum (node3 f c r sf sc sr))))
      with ((t + Qcabs f + Qcabs c + Qcabs r)%Qc, (n + 1 + 1 + 1)%Z).
    cbn [fst snd]. split.
    + pose proof (Qcabs_nonneg f) as Haf. pose proof (Qcabs_nonneg c) as Hac.
      assert (Har : (Z2Qc 4 * p / Z2Qc 15 <= Qcabs r)%Qc).
      { destruct H as [(_ & _ & _ & -> & _) | (_ & _ & -> & _)].
        - rewrite Qcabs_pos by qc_lra. qc_lra.
        - rewrite Qcabs_pos by qc_lra. qc_lra. }
      rewrite !Z2Qc_add.
      set (x := Z2Qc n) in *. set (af := Qcabs f) in *. set (ac := Qcabs c) in *.
      set (ar := Qcabs r) in *. clearbody x af ac ar.
      qc_unfold. nra.
    + rewrite map_size_insert_None by done. lia.
Qed.

Lemma exploitability_hot p nm :
  (1 <= p)%Qc → table_hot p nm → nm ≠ ∅ →
  fltb (_calculate_exploitability nm) f0_001 = false.
Proof.
  intros Hp Hhot Hne. apply fltb_false.
  destruct (regret_totals_hot p nm) as [Ht Hn]; [qc_lra | done |].
  rewrite calculate_exploitability_totals.
  assert (Hsize : (0 < Z.of_nat (size nm))%Z).
  { destruct (size nm) eqn:E; [| lia]. by apply map_size_empty_inv in E. }
  destruct (Z.ltb_spec 0 (regret_totals nm).2) as [Hpos | Hneg]; [| lia].
  rewrite Z.max_r by lia.
  assert (Hc : (Z2Qc 1 <= Z2Qc (regret_totals nm).2)%Qc) by (apply Z2Qc_le; lia).
  set (n := Z2Qc (regret_totals nm).2) in *. set (t := (regret_totals nm).1) in *.
  clearbody n t.
  apply Qcle_trans with (Z2Qc 4 * p / Z2Qc 45)%Qc; [qc_lra |].
  apply Qc_le_div; [qc_lra | done].
Qed.

Lemma pass_nonempty p keys nm : keys ≠ [] → pass p keys nm ≠ ∅.
Proof.
  intros Hk E. destruct keys as [| k keys]; [done |].
  destruct (pass_visits p (k :: keys) nm k) as [node Hl]; [apply list_elem_of_here |].
  by rewrite E, lookup_empty in Hl.
Qed.

(** With a positive pot the loop never stops early, and each iteration adds a
    visit to every player's node. *)
Lemma hot_loop p keys its bound nm ex m :
  (1 <= p)%Qc → keys ≠ [] → table_hot p nm →
  (∀ key, key ∈ keys → m = 0%Z ∨ visited p m key nm) →
  let st := loop p keys its bound nm ex in
  (∀ key, key ∈ keys →
     (m + Z.of_nat (length its))%Z = 0%Z ∨
     visited p (m + Z.of_nat (length its)) key st.1.2) ∧
  (its ≠ [] → is_Some st.1.1) ∧
  length st.2 = (length ex + length (filter (λ i, (i `mod` 100 = 0)%Z) its))%nat.
Proof.
  intros Hp Hk. assert (Hp0 : (0 < p)%Qc) by qc_lra.
  revert bound nm ex m.
  induction its as [| iteration its IH]; intros bound nm ex m Hhot Hv; cbv zeta.
  - cbn. split; [| split]; [| done | lia].
    intros key Hin. rewrite Z.add_0_r. by apply Hv.
  - cbn [loop].
    assert (Hhot' : table_hot p (pass p keys nm)) by by apply table_hot_pass.
    assert (Hv' : ∀ key, key ∈ keys → (m + 1)%Z = 0%Z ∨ visited p (m + 1) key (pass p keys nm)).
    { intros key Hin. right. apply visited_pass; auto. }
    rewrite (exploitability_hot p (pass p keys nm) Hp Hhot' (pass_nonempty p keys nm Hk)).
    rewrite filter_cons.
    destruct (Z.eqb_spec (iteration `mod` 100) 0) as [Hmod | Hmod].
    + destruct (IH (Some iteration) (pass p keys nm)
                  (ex ++ [_calculate_exploitability (pass p keys nm)]) (m + 1)%Z Hhot' Hv')
        as (H1 & H2 & H3).
      rewrite decide_True by done. cbv zeta in *.
      split; [| split].
      * intros key Hin. rewrite length_cons, Nat2Z.inj_succ.
        replace (m + Z.succ (Z.of_nat (length its)))%Z
          with (m + 1 + Z.of_nat (length its))%Z by lia.
        by apply H1.
      * intros _. destruct its; [by eexists | apply H2; done].
      * rewrite H3, length_app. cbn. lia.
    + destruct (IH (Some iteration) (pass p keys nm) ex (m + 1)%Z Hhot' Hv')
        as (H1 & H2 & H3).
      rewrite decide_False by done. cbv zeta in *.
      split; [| split].
      * intros key Hin. rewrite length_cons, Nat2Z.inj_succ.
        replace (m + Z.succ (Z.of_nat (length its)))%Z
          with (m + 1 + Z.of_nat (length its))%Z by lia.
        by apply H1.
      * intros _. destruct its; [by eexists | apply H2; done].
      * rewrite H3. lia.
Qed.

Lemma list_index_elem {A} (l : list A) (j : Z) x : list_index l j = Ret x → x ∈ l.
Proof.
  unfold list_index. destruct (_ <? 0)%Z; [done |].
  destruct (l !! _) eqn:E; [| done]. intros [= <-].
  by eapply list_elem_of_lookup_2.
Qed.

Lemma generate_info_set_key gs j key :
  _generate_info_set gs j = Ret key → key ∈ player_keys gs.
Proof.
  unfold _generate_info_set. destruct (list_index (players gs) j) as [pd |] eqn:E; [| done].
  intros [= <-]. unfold player_keys. apply list_elem_of_fmap. exists pd.
  split; [reflexivity | by eapply list_index_elem].
Qed.

Lemma float_of_int_small z :
  (Z.abs z < float_overflow_bound)%Z → float_of_int z = Ret (Z2Qc z).
Proof.
  intros H. unfold float_of_int. destruct (Z.ltb_spec (Z.abs z) float_overflow_bound); [done | lia].
Qed.

(** C9, as the code has it.  For every request with a positive pot (one that
    converts to [float]) and an iteration budget of at least 500, whatever the
    street, the cards and the history, the solve succeeds and the averaged
    strategy of the acting player's info set puts at least 0.6 on raise. *)
Theorem positive_pot_raises gs n key :
  (0 < pot gs < float_overflow_bound)%Z →
  (500 <= n)%Z →
  _generate_info_set gs (current_player gs) = Ret key →
  ∃ r s q, solve_strategy gs n = Ret r ∧
           SolveResult.strategy r !! key = Some s ∧
           dict_get s "raise" = Some q ∧ (f0_6 <= q)%Qc.
Proof.
  intros Hpot Hn Hkey.
  assert (Hp : float_of_int (pot gs) = Ret (Z2Qc (pot gs))) by (apply float_of_int_small; lia).
  assert (Hp1 : (1 <= Z2Qc (pot gs))%Qc) by (apply (Z2Qc_le 1); lia).
  assert (Hin : key ∈ player_keys gs) by by eapply generate_info_set_key.
  assert (Hk : player_keys gs ≠ []) by (intros E; rewrite E in Hin; by apply elem_of_nil in Hin).
  rewrite (solve_strategy_pure gs _ n Hp).
  destruct (hot_loop (Z2Qc (pot gs)) (player_keys gs) (py_range n) None ∅ [] 0 Hp1 Hk
              (table_hot_empty _)) as (Hv & Hb & _); [by left |].
  cbv zeta in *.
  destruct Hb as [iteration Hb].
  { unfold py_range. rewrite seqZ_cons by lia. done. }
  assert (Hlen : Z.of_nat (length (py_range n)) = n).
  { unfold py_range. rewrite length_seqZ. lia. }
  pose proof (Hv key Hin) as Hv'. rewrite Hlen, Z.add_0_l in Hv'.
  destruct Hv' as [H0 | (node & Hl & Hhot)]; [lia |].
  destruct (hot_average _ n node ltac:(lia) Hhot) as (a & b & q & Havg & Hq).
  unfold result_of. rewrite Hb.
  eexists _, (dict3 a b q), q. split; [reflexivity |]. cbn [SolveResult.strategy].
  split; [| split; [reflexivity | exact Hq]].
  unfold _get_average_strategy. by rewrite lookup_fmap, Hl, <- Havg.
Qed.

Lemma positive_pot_raises_witness :
  ∃ r s q, solve_strategy (aces_preflop 3) 500 = Ret r ∧
           SolveResult.strategy r !! "preflop|AsAh||3" = Some s ∧
           dict_get s "raise" = Some q ∧ (f0_6 <= q)%Qc.
Proof.
  apply (positive_pot_raises (aces_preflop 3) 500 "preflop|AsAh||3").
  - by vm_compute.
  - lia.
  - reflexivity.
Defined.

(** The specification's wording fails for a negative pot: pocket aces, 500
    iterations, and raise gets 1/1500. *)
Lemma negative_pot_folds :
  ∃ r s q, solve_strategy (aces_preflop (-100)) 500 = Ret r ∧
           pot (aces_preflop (-100)) ≠ 0%Z ∧
           _generate_info_set (aces_preflop (-100)) 0 = Ret "preflop|AsAh||-100" ∧
           SolveResult.strategy r !! "preflop|AsAh||-100" = Some s ∧
           dict_get s "raise" = Some q ∧ this q = (1 # 1500)%Q ∧ ¬ (f0_6 <= q)%Qc.
Proof.
  eexists _, _, _. split; [vm_compute; reflexivity |].
  split; [done |]. split; [reflexivity |].
  split; [vm_compute; reflexivity |].
  split; [vm_compute; reflexivity |].
  split; [vm_compute; reflexivity |].
  by vm_compute.
Qed.

(** C3 at a failing input: pot 100, one player, 201 iterations.  The three
    samples are 200/9, 24148/9 and 48148/9: the sequence grows. *)
Lemma exploitability_grows :
  ∃ r, solve_strategy (heads_up 100 false) 201 = Ret r ∧
       this <$> SolveResult.convergence_history r =
         [(200 # 9)%Q; (24148 # 9)%Q; (48148 # 9)%Q] ∧
       ¬ non_increasing (SolveResult.convergence_history r).
Proof.
  eexists. split; [vm_compute; reflexivity |].
  split; [vm_compute; reflexivity |].
  intros H. specialize (H 0%nat 1%nat _ _ ltac:(lia) eq_refl eq_refl).
  revert H. by vm_compute.
Qed.

(** * The terminal flag *)

Lemma cfr_loop_terminal b gs its bound nm ex :
  cfr_loop (with_terminal b gs) its bound nm ex = cfr_loop gs its bound nm ex.
Proof.
  revert bound nm ex. induction its as [| iteration its IH]; intros bound nm ex; [done |].
  cbn [cfr_loop].
  change (cfr_players_pass (with_terminal b gs) nm) with (cfr_players_pass gs nm).
  destruct (cfr_players_pass gs nm) as [nm' | e]; [| done].
  rewrite !bind_Ret.
  destruct (iteration `mod` 100 =? 0)%Z; [| apply IH].
  cbv zeta. destruct (fltb _ f0_001); [done | apply IH].
Qed.

Lemma exploitability_empty : _calculate_exploitability ∅ = 0%Qc.
Proof. reflexivity. Qed.

(** The specification's wording fails on a root with the terminal flag set: the solve
    runs as on any other root. *)
Lemma terminal_root_is_solved :
  ∃ r s q, is_terminal (heads_up 100 true) = true ∧
           solve_strategy (heads_up 100 true) 2 = Ret r ∧
           this (SolveResult.exploitability r) = (200 # 9)%Q ∧
           SolveResult.exploitability r ≠ 1%Qc ∧
           SolveResult.strategy r !! "flop|AsKs|AhKd7c|100" = Some s ∧
           dict_get s "raise" = Some q ∧ this q = (17 # 30)%Q ∧ q ≠ third.
Proof.
  eexists _, _, _. split; [reflexivity |].
  split; [vm_compute; reflexivity |].
  split; [vm_compute; reflexivity |].
  split; [by vm_compute |].
  split; [vm_compute; reflexivity |].
  split; [vm_compute; reflexivity |].
  split; [vm_compute; reflexivity | by vm_compute].
Qed.

(** C4, as the code has it.  The solver never reads the terminal flag: a root
    solves to the same result with the flag set or cleared.  The one root whose
    solve evaluates no decision point is a root without players; with a budget
    of at least one iteration it yields an empty strategy map, exploitability 0
    and one iteration. *)
Theorem terminal_flag_is_ignored :
  (∀ gs b n, solve_strategy (with_terminal b gs) n = solve_strategy gs n) ∧
  (∀ gs n, players gs = [] → (1 <= n)%Z →
     solve_strategy gs n =
       Ret {| SolveResult.strategy := ∅;
              SolveResult.exploitability := 0;
              SolveResult.iterations := 1;
              SolveResult.convergence_history := [0%Qc] |}).
Proof.
  split.
  - intros gs b n. unfold solve_strategy. by rewrite cfr_loop_terminal.
  - intros gs n Hpl Hn.
    rewrite (solve_strategy_nobody gs n Hpl), py_range_pos by lia.
    cbn [loop pass foldl]. change (0 `mod` 100 =? 0)%Z with true. cbv iota zeta.
    rewrite exploitability_empty. change (fltb 0 f0_001) with true. cbv iota.
    unfold result_of. cbn. unfold _get_average_strategy. by rewrite fmap_empty.
Qed.

Lemma terminal_flag_is_ignored_witness :
  solve_strategy (with_terminal true (heads_up 100 false)) 2
    = solve_strategy (heads_up 100 false) 2 ∧
  solve_strategy
    {| street := "river"; pot := 40; community_cards := "AhKd7c2s9h"; players := [];
       current_player := 0; history := []; is_terminal := true |} 5
    = Ret {| SolveResult.strategy := ∅;
             SolveResult.exploitability := 0;
             SolveResult.iterations := 1;
             SolveResult.convergence_history := [0%Qc] |}.
Proof.
  split.
  - apply (proj1 terminal_flag_is_ignored).
  - apply (proj2 terminal_flag_is_ignored); [reflexivity | lia].
Defined.

(** * The info-set key *)

Lemma generate_info_set_inputs gs player :
  _generate_info_set gs player =
    '(st, cards, board, p) ← key_inputs gs player;
    Ret (st +:+ "|" +:+ default "" cards +:+ "|" +:+ board +:+ "|" +:+ pretty p).
Proof.
  unfold _generate_info_set, key_inputs.
  destruct (list_index (players gs) player); reflexivity.
Qed.

Lemma list_index_alter_ne {A} (f : A → A) (l : list A) (i : nat) (j : Z) :
  Z.of_nat i ≠ (if (j <? 0)%Z then (j + Z.of_nat (length l))%Z else j) →
  list_index (alter f i l) j = list_index l j.
Proof.
  intros Hne. unfold list_index. rewrite length_alter.
  set (k := if (j <? 0)%Z then _ else _) in *.
  destruct (Z.ltb_spec k 0) as [| Hk]; [done |].
  rewrite list_lookup_alter_ne; [done |]. lia.
Qed.

(** C7.  The key of the acting player depends on the request only through
    the street, the acting player's hole cards, the community cards and the
    pot: requests that agree there get the same key.  In particular dealing any
    other cards to a player who is not the acting one leaves the key
    unchanged. *)
Theorem info_set_key_hides_opponents :
  (∀ gs1 gs2 player,
     key_inputs gs1 player = key_inputs gs2 player →
     _generate_info_set gs1 player = _generate_info_set gs2 player) ∧
  (∀ gs player i cards,
     Z.of_nat i ≠ resolve_index gs player →
     _generate_info_set (deal i cards gs) player = _generate_info_set gs player).
Proof.
  split.
  - intros gs1 gs2 player H. by rewrite !generate_info_set_inputs, H.
  - intros gs player i cards Hne. unfold _generate_info_set.
    cbn [players street community_cards pot deal].
    by rewrite list_index_alter_ne.
Qed.

Lemma info_set_key_hides_opponents_witness :
  _generate_info_set (deal 1 (Some "KdKc") (aces_preflop 3)) 0
    = _generate_info_set (aces_preflop 3) 0 ∧
  _generate_info_set (aces_preflop 3) 0 = Ret "preflop|AsAh||3".
Proof.
  split.
  - apply (proj2 info_set_key_hides_opponents). by vm_compute.
  - reflexivity.
Defined.

(** * Pot odds *)

(** The specification's wording fails when the pot cancels the call amount: the
    division is by zero. *)
Lemma pot_odds_divides_by_zero :
  let gs := {| street := "turn"; pot := -50; community_cards := "AhKd7c2s";
               players := [seat "QsQd" 0 "BTN"; seat "XX" 50 "BB"];
               current_player := 0; history := []; is_terminal := false |} in
  calculate_pot_odds (-50) 50 = Raise ZeroDivisionError ∧
  get_call_amount gs = 50%Z ∧
  calculate_pot_odds (pot gs) (get_call_amount gs) = Raise ZeroDivisionError.
Proof. cbv zeta. split; [reflexivity | split; reflexivity]. Qed.

Lemma get_call_amount_nonneg gs : (0 <= get_call_amount gs)%Z.
Proof.
  unfold get_call_amount.
  destruct (list_index _ _) as [pd |]; cbn; [| lia].
  destruct (py_max_int _) as [mx |]; cbn; [| lia].
  destruct (Z.ltb_spec 0 (mx - default 0 (invested pd)))%Z; lia.
Qed.

Lemma int_truediv_fraction a b :
  (0 < a)%Z → (a <= b)%Z → int_truediv a b = Ret (Z2Qc a / Z2Qc b)%Qc.
Proof.
  intros Ha Hb. unfold int_truediv.
  destruct (Z.eqb_spec b 0); [lia |].
  assert (H0 : (0 < Z2Qc b)%Qc) by (apply (Z2Qc_lt 0); lia).
  assert (Hq : (0 <= Z2Qc a / Z2Qc b)%Qc).
  { apply Qc_le_div; [done |]. rewrite Qcmult_0_l. apply (Z2Qc_le 0). lia. }
  assert (Hq1 : (Z2Qc a / Z2Qc b <= 1)%Qc).
  { apply (Qcmult_le_mono_pos_r _ _ (Z2Qc b) H0).
    rewrite Qcmult_comm, Qcmult_div_r, Qcmult_1_l.
    - by apply Z2Qc_le.
    - intros E. rewrite E in H0. by apply (Qclt_not_eq _ _ H0). }
  rewrite Qcabs_pos by done.
  assert (E : fltb (Z2Qc a / Z2Qc b) (Z2Qc float_overflow_bound) = true).
  { apply fltb_true. eapply Qcle_lt_trans; [exact Hq1 |]. by vm_compute. }
  by rewrite E.
Qed.

(** C8, as the code has it.  For a non-negative pot and a non-negative call
    amount (what [get_call_amount] always returns), the pot odds are
    [call_amount / (pot + call_amount)], exactly 0 when the call amount is 0,
    and the computation raises nothing: no division by zero. *)
Theorem pot_odds_is_safe :
  (∀ pot call_amount, (0 <= pot)%Z → (0 <= call_amount)%Z →
     calculate_pot_odds pot call_amount =
       Ret (if (call_amount =? 0)%Z then 0%Qc
            else (Z2Qc call_amount / Z2Qc (pot + call_amount))%Qc)) ∧
  (∀ pot, calculate_pot_odds pot 0 = Ret 0%Qc) ∧
  (∀ gs, (0 <= pot gs)%Z →
     is_Ret (calculate_pot_odds (pot gs) (get_call_amount gs))).
Proof.
  assert (H : ∀ pot call_amount, (0 <= pot)%Z → (0 <= call_amount)%Z →
     calculate_pot_odds pot call_amount =
       Ret (if (call_amount =? 0)%Z then 0%Qc
            else (Z2Qc call_amount / Z2Qc (pot + call_amount))%Qc)).
  { intros p c Hp Hc. unfold calculate_pot_odds.
    destruct (Z.eqb_spec c 0); [done |]. apply int_truediv_fraction; lia. }
  split; [exact H | split].
  - reflexivity.
  - intros gs Hp. rewrite H by (done || apply get_call_amount_nonneg).
    by eexists.
Qed.

Lemma pot_odds_is_safe_witness :
  calculate_pot_odds 100 50 = Ret (Z2Qc 50 / Z2Qc 150)%Qc ∧
  calculate_pot_odds 100 0 = Ret 0%Qc.
Proof.
  split.
  - apply (proj1 pot_odds_is_safe 100%Z 50%Z); lia.
  - apply (proj1 (proj2 pot_odds_is_safe)).
Defined.

(** * The cache gate *)

Lemma service_bind_unfold {A B} (m : service A) (f : A → service B) w :
  (m ≫= f) w = match m w with
               | (Ret a, w') => f a w'
               | (Raise e, w') => (Raise e, w')
               end.
Proof. reflexivity. Qed.

Lemma world_eta w : {| redis_client := redis_client w; now := now w; log := log w |} = w.
Proof. by destruct w. Qed.

Lemma cache_strategy_skip key result response w :
  (f0_01 <= SolveResult.exploitability result)%Qc →
  cache_strategy key result response w = (Ret tt, w).
Proof.
  intros He. apply fltb_false in He. unfold cache_strategy.
  rewrite service_bind_unfold. unfold redis_connected. rewrite He, andb_false_r.
  reflexivity.
Qed.

Lemma cache_batch_result_skip state_hash cache_results scenario result w :
  (f0_01 <= SolveResult.exploitability result)%Qc →
  cache_batch_result state_hash cache_results scenario result w = (Ret tt, w).
Proof.
  intros He. apply fltb_false in He. unfold cache_batch_result.
  rewrite service_bind_unfold. unfold redis_connected. rewrite He, andb_false_r.
  reflexivity.
Qed.

Lemma cache_strategy_store key result response w store :
  (SolveResult.exploitability result < f0_01)%Qc →
  redis_client w = Some store →
  cache_strategy key result response w =
    (Ret tt, {| redis_client := Some (<[key := ((now w + 3600)%Z, StrategyJson response)]> store);
                now := now w; log := log w |}).
Proof.
  intros He Hs. apply fltb_true in He. unfold cache_strategy.
  rewrite service_bind_unfold. unfold redis_connected, redis_setex. rewrite He, Hs.
  cbn. by rewrite Hs.
Qed.

Lemma store_get_later store (t dt : Z) key :
  (0 <= dt)%Z → store_get store t key = None → store_get store (t + dt) key = None.
Proof.
  intros Hdt. unfold store_get. destruct (store !! key) as [[expires v] |]; [| done].
  destruct (Z.ltb_spec t expires); [done |]. intros _.
  destruct (Z.ltb_spec (t + dt) expires); [lia | done].
Qed.

Lemma redis_get_later key w dt :
  (0 <= dt)%Z → (redis_get key w).1 = Ret None → (redis_get key (tick dt w)).1 = Ret None.
Proof.
  intros Hdt. unfold redis_get, tick. cbn.
  destruct (redis_client w) as [store |]; [| done].
  intros [= H]. by rewrite store_get_later.
Qed.

(** C6.  Both cache writes are gated: with [exploitability >= 0.01] the write
    is a no-op that leaves the whole state as it was, so a key that was absent
    stays absent at any later time; with [exploitability < 0.01] and a
    connected client the entry is stored. *)
Theorem cache_put_is_gated state_hash :
  (∀ key result response w,
     (f0_01 <= SolveResult.exploitability result)%Qc →
     cache_strategy key result response w = (Ret tt, w)) ∧
  (∀ cache_results scenario result w,
     (f0_01 <= SolveResult.exploitability result)%Qc →
     cache_batch_result state_hash cache_results scenario result w = (Ret tt, w)) ∧
  (∀ key result response w dt,
     (f0_01 <= SolveResult.exploitability result)%Qc →
     (0 <= dt)%Z →
     (redis_get key w).1 = Ret None →
     (redis_get key (tick dt (cache_strategy key result response w).2)).1 = Ret None) ∧
  (∀ key result response w store,
     (SolveResult.exploitability result < f0_01)%Qc →
     redis_client w = Some store →
     (redis_get key (cache_strategy key result response w).2).1
       = Ret (Some (StrategyJson response))).
Proof.
  split; [| split; [| split]].
  - intros. by apply cache_strategy_skip.
  - intros. by apply cache_batch_result_skip.
  - intros key result response w dt He Hdt Hget.
    rewrite cache_strategy_skip by done. by apply redis_get_later.
  - intros key result response w store He Hs.
    rewrite (cache_strategy_store key result response w store He Hs).
    unfold redis_get, store_get. cbn. rewrite lookup_insert_eq.
    destruct (Z.ltb_spec (now w) (now w + 3600)); [done | lia].
Qed.

Lemma cache_put_is_gated_witness :
  cache_strategy "gto_strategy:7" result_without_key
    {| GTOStrategy.strategy := default_strategy; GTOStrategy.exploitability := f0_5;
       GTOStrategy.iterations := 1; GTOStrategy.confidence := f0_5;
       GTOStrategy.info_set := "preflop|AsAh||3" |} quiet_world
  = (Ret tt, quiet_world).
Proof.
  apply (proj1 (cache_put_is_gated sample_hash)). by vm_compute.
Defined.

(** * A key the solver did not visit *)








(** After a solve that returned, the acting player's key is always in the
    strategy map: the fallback above is never taken by the two endpoints. *)
Lemma loop_keeps p keys its bound nm ex key :
  is_Some (nm !! key) → is_Some ((loop p keys its bound nm ex).1.2 !! key).
Proof.
  revert bound nm ex. induction its as [| iteration its IH]; intros bound nm ex H; [done |].
  cbn [loop]. cbv zeta.
  pose proof (pass_keeps p keys nm key H) as H'.
  destruct (_ =? _)%Z; [destruct (fltb _ _); [done |] |]; by apply IH.
Qed.

Lemma loop_visits p keys its bound nm ex key :
  key ∈ keys → its ≠ [] → is_Some ((loop p keys its bound nm ex).1.2 !! key).
Proof.
  intros Hin Hits. destruct its as [| iteration its]; [done |].
  cbn [loop]. cbv zeta.
  pose proof (pass_visits p keys nm key Hin) as H'.
  destruct (_ =? _)%Z; [destruct (fltb _ _); [done |] |]; by apply loop_keeps.
Qed.

Lemma solved_key_is_present gs n r j key :
  solve_strategy gs n = Ret r → _generate_info_set gs j = Ret key →
  is_Some (SolveResult.strategy r !! key).
Proof.
  intros Hs Hkey. apply generate_info_set_key in Hkey.
  assert (Hpl : players gs ≠ []).
  { intros E. unfold player_keys in Hkey. rewrite E in Hkey. by apply elem_of_nil in Hkey. }
  destruct (Z.le_gt_cases n 0) as [Hn | Hn].
  { by rewrite solve_strategy_no_iteration in Hs. }
  destruct (float_of_int (pot gs)) as [p | e] eqn:Hp.
  2: { by rewrite (solve_strategy_overflow gs n e) in Hs. }
  rewrite (solve_strategy_pure gs p n Hp) in Hs.
  pose proof (loop_visits p (player_keys gs) (py_range n) None ∅ [] key Hkey) as Hv.
  rewrite py_range_pos in Hv, Hs by lia. specialize (Hv ltac:(done)).
  destruct (loop _ _ _ _ _ _) as [[b nm] ex]. unfold result_of in Hs. cbn in Hs, Hv.
  destruct b; [| done]. injection Hs as <-. cbn.
  unfold _get_average_strategy. rewrite lookup_fmap.
  destruct Hv as [node ->]. by eexists.
Qed.

(** * The batch job *)

Lemma service_for_each_app {S A} (l1 l2 : list A) (s : S) (body : S → A → service S) w :
  service_for_each (l1 ++ l2) s body w =
    match service_for_each l1 s body w with
    | (Ret s', w') => service_for_each l2 s' body w'
    | (Raise e, w') => (Raise e, w')
    end.
Proof.
  revert s w. induction l1 as [| x l1 IH]; intros s w; [done |].
  cbn [app service_for_each]. rewrite !service_bind_unfold.
  destruct (body s x w) as [[s' | e] w']; [apply IH | done].
Qed.

Lemma solve_service_Ret gs n r w :
  solve_strategy gs n = Ret r → cfr_solver_solve_strategy gs n w = (Ret r, w).
Proof. intros H. unfold cfr_solver_solve_strategy, try_except, lift. by rewrite H. Qed.

Lemma solve_service_Raise gs n e w :
  solve_strategy gs n = Raise e →
  cfr_solver_solve_strategy gs n w = (Raise e, add_log (CFRSolveError e) w).
Proof. intros H. unfold cfr_solver_solve_strategy, try_except, lift. by rewrite H. Qed.

Section Batch.
Variable state_hash : GTOGameState → Z.

Lemma batch_scenario_failure batch_id total n c st sc e w :
  solve_strategy sc n = Raise e →
  batch_scenario state_hash batch_id total n c st sc w
    = (Raise e, add_log (CFRSolveError e) w).
Proof.
  intros H. destruct st as [completed rates]. unfold batch_scenario.
  by rewrite service_bind_unfold, (solve_service_Raise _ _ _ _ H).
Qed.

Lemma batch_scenario_success batch_id total n c st sc r w :
  solve_strategy sc n = Ret r →
  ∃ w', batch_scenario state_hash batch_id total n c st sc w
          = (Ret ((st.1 + 1)%Z, st.2 ++ [(1 - SolveResult.exploitability r)%Qc]), w') ∧
        log w' = log w.
Proof.
  intros H. destruct st as [completed rates]. unfold batch_scenario.
  rewrite service_bind_unfold, (solve_service_Ret _ _ _ _ H).
  unfold cache_batch_result, redis_connected, redis_setex.
  destruct c, (fltb (SolveResult.exploitability r) f0_01), w as [[store |] t l];
    eexists; split; reflexivity.
Qed.

Lemma batch_loop_solvable batch_id total n c pre st w :
  Forall (λ sc, is_Ret (solve_strategy sc n)) pre →
  ∃ st' w', batch_loop state_hash batch_id total n c pre st w = (Ret st', w') ∧
            st'.1 = (st.1 + Z.of_nat (length pre))%Z ∧ log w' = log w.
Proof.
  intros Hpre. revert st w. induction Hpre as [| sc pre [r Hr] _ IH]; intros st w.
  - exists st, w. split; [reflexivity | split; [cbn; lia | reflexivity]].
  - destruct (batch_scenario_success batch_id total n c st sc r w Hr) as (w1 & E1 & L1).
    destruct (IH ((st.1 + 1)%Z, st.2 ++ [(1 - SolveResult.exploitability r)%Qc]) w1)
      as (st' & w' & E & Hc & L).
    exists st', w'. split; [| split].
    + unfold batch_loop in *. cbn [service_for_each].
      by rewrite service_bind_unfold, E1.
    + rewrite Hc. cbn [fst length]. lia.
    + congruence.
Qed.

Lemma batch_loop_stops batch_id total n c pre bad post e st w :
  Forall (λ sc, is_Ret (solve_strategy sc n)) pre →
  solve_strategy bad n = Raise e →
  ∃ st' w', batch_loop state_hash batch_id total n c pre st w = (Ret st', w') ∧
            st'.1 = (st.1 + Z.of_nat (length pre))%Z ∧ log w' = log w ∧
            batch_loop state_hash batch_id total n c (pre ++ bad :: post) st w
              = (Raise e, add_log (CFRSolveError e) w').
Proof.
  intros Hpre Hbad.
  destruct (batch_loop_solvable batch_id total n c pre st w Hpre) as (st' & w' & E & Hc & L).
  exists st', w'. repeat split; try done.
  unfold batch_loop in *. rewrite service_for_each_app, E.
  cbn [service_for_each]. rewrite service_bind_unfold.
  by rewrite (batch_scenario_failure _ _ _ _ _ _ _ _ Hbad).
Qed.
End Batch.

(** The specification's wording fails.  In a job of three scenarios whose second one
    cannot be solved (its pot does not fit a [float]), the third one is never
    taken up: the progress record stays at 1 of 3 and nothing is cached for
    the third scenario, which on its own is solved and cached. *)
Lemma batch_aborts_at_failing_scenario :
  let batch := [aces_preflop 0; aces_preflop (10 ^ 400); heads_up 0 false] in
  let w' := process_batch_background sample_hash "job" batch 1 true quiet_world in
  let alone := process_batch_background sample_hash "job" [heads_up 0 false] 1 true quiet_world in
  is_Ret (solve_strategy (heads_up 0 false) 1) ∧
  log w' = [CFRSolveError OverflowError; BatchBackgroundError OverflowError] ∧
  (∃ progress,
     (redis_get (progress_key "job") w').1 = Ret (Some (ProgressJson progress)) ∧
     TrainingProgress.completed progress = 1%Z ∧
     TrainingProgress.total progress = 3%Z) ∧
  (redis_get (strategy_cache_key sample_hash (heads_up 0 false)) w').1 = Ret None ∧
  (∃ v, (redis_get (strategy_cache_key sample_hash (heads_up 0 false)) alone).1
          = Ret (Some v)).
Proof.
  cbv zeta. split; [| split; [| split; [| split]]].
  - eexists. vm_compute. reflexivity.
  - vm_compute. reflexivity.
  - eexists. split; [vm_compute; reflexivity | split; reflexivity].
  - vm_compute. reflexivity.
  - eexists. vm_compute. reflexivity.
Qed.

(** C1, as the code has it.  One handler encloses the whole scenario loop.
    When the scenarios before the failing one are all solvable, they are
    processed and [completed] counts them; the failing solve is logged twice
    (by the solver and by the job) and the job ends there.  What was written to
    Redis before stays, and the scenarios after the failing one are never
    looked at: replacing them by any others of the same number changes
    nothing. *)
Theorem batch_stops_at_first_failure state_hash batch_id pre bad post iterations
    cache_results e w :
  Forall (λ sc, is_Ret (solve_strategy sc iterations)) pre →
  solve_strategy bad iterations = Raise e →
  ∃ st w',
    batch_loop state_hash batch_id (Z.of_nat (length (pre ++ bad :: post))) iterations
      cache_results pre (0%Z, []) w = (Ret st, w') ∧
    st.1 = Z.of_nat (length pre) ∧
    log w' = log w ∧
    process_batch_background state_hash batch_id (pre ++ bad :: post) iterations
      cache_results w
      = add_log (BatchBackgroundError e) (add_log (CFRSolveError e) w') ∧
    ∀ post', length post' = length post →
      process_batch_background state_hash batch_id (pre ++ bad :: post') iterations
        cache_results w
      = process_batch_background state_hash batch_id (pre ++ bad :: post) iterations
          cache_results w.
Proof.
  intros Hpre Hbad.
  destruct (batch_loop_stops state_hash batch_id (Z.of_nat (length (pre ++ bad :: post)))
              iterations cache_results pre bad post e (0%Z, []) w Hpre Hbad)
    as (st & w' & E & Hc & L & Estop).
  exists st, w'. split; [done |]. split; [by rewrite Hc |]. split; [done |].
  assert (Hfinal : process_batch_background state_hash batch_id (pre ++ bad :: post)
                     iterations cache_results w
                   = add_log (BatchBackgroundError e) (add_log (CFRSolveError e) w')).
  { unfold process_batch_background. cbv zeta. by rewrite Estop. }
  split; [done |].
  intros post' Hlen. rewrite Hfinal.
  destruct (batch_loop_stops state_hash batch_id (Z.of_nat (length (pre ++ bad :: post)))
              iterations cache_results pre bad post' e (0%Z, []) w Hpre Hbad)
    as (st2 & w2 & E2 & _ & _ & Estop2).
  rewrite E in E2. injection E2 as <- <-.
  unfold process_batch_background. cbv zeta.
  replace (length (pre ++ bad :: post')) with (length (pre ++ bad :: post))
    by (rewrite !length_app; cbn; lia).
  by rewrite Estop2.
Qed.

Lemma batch_stops_at_first_failure_witness :
  ∃ st w',
    batch_loop sample_hash "job" 3 1 true [aces_preflop 0] (0%Z, []) quiet_world
      = (Ret st, w') ∧
    st.1 = 1%Z ∧
    log w' = [] ∧
    process_batch_background sample_hash "job"
      [aces_preflop 0; aces_preflop (10 ^ 400); heads_up 0 false] 1 true quiet_world
      = add_log (BatchBackgroundError OverflowError)
          (add_log (CFRSolveError OverflowError) w').
Proof.
  destruct (batch_stops_at_first_failure sample_hash "job" [aces_preflop 0]
              (aces_preflop (10 ^ 400)) [heads_up 0 false] 1 true OverflowError quiet_world)
    as (st & w' & E & Hc & L & Hfinal & _).
  - constructor; [| constructor]. eexists. vm_compute. reflexivity.
  - vm_compute. reflexivity.
  - exists st, w'. repeat split; assumption.
Defined.

(** * A nonzero pot *)

Lemma visit_biased p f c r sf sc sr :
  ((0 < p)%Qc → (Z2Qc 4 * p / Z2Qc 15 <= r)%Qc ∨ (f = 0 ∧ c = 0 ∧ r = 0)%Qc) →
  ((p < 0)%Qc → (- (p / Z2Qc 3) <= f)%Qc ∨ (f = 0 ∧ c = 0 ∧ r = 0)%Qc) →
  biased p (visit p 1 f c r sf sc sr).
Proof.
  intros Hpos Hneg. unfold visit. cbv zeta.
  do 6 eexists. split; [reflexivity |].
  split.
  - intros Hp. destruct (Hpos Hp) as [Hr | (-> & -> & ->)].
    + destruct (regret_matching_distribution f c r) as (H1 & H2 & H3 & Hs).
      cbv zeta in *. unfold node_utility.
      destruct (regret_matching f c r) as [[s1 s2] s3]. cbn [fst snd] in *.
      assert (E : s3 = (1 - s1 - s2)%Qc) by (unfold float in *; rewrite <- Hs; ring).
      subst s3.
      pose proof (Qcmult_nonneg_nonneg s1 p H1 ltac:(by apply Qclt_le_weak)) as M1.
      pose proof (Qcmult_nonneg_nonneg s2 p H2 ltac:(by apply Qclt_le_weak)) as M2.
      qc_unfold. nra.
    + rewrite regret_matching_zero. unfold node_utility. cbn [fst snd]. qc_lra.
  - intros Hp. destruct (Hneg Hp) as [Hf | (-> & -> & ->)].
    + destruct (regret_matching_distribution f c r) as (H1 & H2 & H3 & Hs).
      cbv zeta in *. unfold node_utility.
      destruct (regret_matching f c r) as [[s1 s2] s3]. cbn [fst snd] in *.
      qc_unfold. nra.
    + rewrite regret_matching_zero. unfold node_utility. cbn [fst snd]. qc_lra.
Qed.

Lemma table_biased_empty p : table_biased p ∅.
Proof. intros key node H. by rewrite lookup_empty in H. Qed.

Lemma table_biased_touch p nm key : table_biased p nm → table_biased p (touch p nm key).
Proof.
  intros Hnm key' node. unfold touch. rewrite lookup_insert.
  case_decide; [| apply Hnm]. intros [= <-].
  destruct (nm !! key) as [node |] eqn:E; cbn [default].
  - destruct (Hnm key node E) as (f & c & r & sf & sc & sr & -> & Hpos & Hneg).
    change (biased p (visit p 1 f c r sf sc sr)). apply visit_biased; auto.
  - change (biased p (visit p 1 0 0 0 0 0 0)). apply visit_biased; auto.
Qed.

Lemma table_biased_pass p keys nm : table_biased p nm → table_biased p (pass p keys nm).
Proof.
  unfold pass. revert nm.
  induction keys as [| key keys IH]; intros nm Hnm; [done |].
  cbn. apply IH. by apply table_biased_touch.
Qed.

Lemma regret_totals_biased p nm :
  table_biased p nm →
  (regret_floor p * Z2Qc (regret_totals nm).2 <= (regret_totals nm).1)%Qc ∧
  (regret_totals nm).2 = (3 * Z.of_nat (size nm))%Z.
Proof.
  unfold regret_totals.
  apply (map_fold_weak_ind (λ r m, table_biased p m →
    (regret_floor p * Z2Qc r.2 <= r.1)%Qc ∧ r.2 = (3 * Z.of_nat (size m))%Z)).
  - intros _. cbn [fst snd]. split; [| by rewrite map_size_empty].
    change (Z2Qc 0) with 0%Qc. rewrite Qcmult_0_r. apply Qcle_refl.
  - intros key node m [t n] Hfresh IH Hb.
    destruct IH as [IHt IHn].
    { intros key' node' H'. apply (Hb key' node').
      rewrite lookup_insert_ne; [done | congruence]. }
    destruct (Hb key node) as (f & c & r & sf & sc & sr & -> & Hpos & Hneg);
      [by rewrite lookup_insert_eq |].
    cbn [fst snd] in *.
    change (foldl _ (t, n) (dict_values (regret_sum (node3 f c r sf sc sr))))
      with ((t + Qcabs f + Qcabs c + Qcabs r)%Qc, (n + 1 + 1 + 1)%Z).
    cbn [fst snd]. split; [| rewrite map_size_insert_None by done; lia].
    pose proof (Qcabs_nonneg f) as Haf. pose proof (Qcabs_nonneg c) as Hac.
    pose proof (Qcabs_nonneg r) as Har.
    pose proof (Qcle_Qcabs f) as Hlf. pose proof (Qcle_Qcabs r) as Hlr.
    assert (Hsum : (Z2Qc 4 * Qcabs p / Z2Qc 15 <= Qcabs f + Qcabs c + Qcabs r)%Qc).
    { destruct (Qclt_le_dec 0 p) as [Hp | Hp].
      - specialize (Hpos Hp). rewrite (Qcabs_pos p) by by apply Qclt_le_weak.
        set (af := Qcabs f) in *. set (ac := Qcabs c) in *. set (ar := Qcabs r) in *.
        clearbody af ac ar. qc_lra.
      - rewrite (Qcabs_neg p) by done.
        destruct (Qc_eq_dec p 0%Qc) as [-> | Hne].
        + set (af := Qcabs f) in *. set (ac := Qcabs c) in *. set (ar := Qcabs r) in *.
          clearbody af ac ar. qc_lra.
        + assert (Hp' : (p < 0)%Qc).
          { apply Qcle_lt_or_eq in Hp as [Hp | Hp]; [done | congruence]. }
          specialize (Hneg Hp').
          set (af := Qcabs f) in *. set (ac := Qcabs c) in *. set (ar := Qcabs r) in *.
          clearbody af ac ar. qc_lra. }
    unfold regret_floor in *. rewrite !Z2Qc_add.
    set (x := Z2Qc n) in *. set (s := (Qcabs f + Qcabs c + Qcabs r)%Qc) in *.
    set (a := Qcabs p) in *.
    replace (t + Qcabs f + Qcabs c + Qcabs r)%Qc with (t + s)%Qc
      by (unfold s, float in *; ring).
    clearbody x s a. qc_unfold. nra.
Qed.

Lemma exploitability_biased p nm :
  table_biased p nm → nm ≠ ∅ → (regret_floor p <= _calculate_exploitability nm)%Qc.
Proof.
  intros Hb Hne.
  destruct (regret_totals_biased p nm Hb) as [Ht Hn].
  rewrite calculate_exploitability_totals.
  assert (Hsize : (0 < Z.of_nat (size nm))%Z).
  { destruct (size nm) eqn:E; [| lia]. by apply map_size_empty_inv in E. }
  destruct (Z.ltb_spec 0 (regret_totals nm).2) as [Hpos | Hneg]; [| lia].
  rewrite Z.max_r by lia.
  assert (Hc : (Z2Qc 0 < Z2Qc (regret_totals nm).2)%Qc) by (apply Z2Qc_lt; lia).
  apply Qc_le_div; [exact Hc | exact Ht].
Qed.

Lemma regret_floor_bound p : (1 <= Qcabs p)%Qc → (f0_01 <= regret_floor p)%Qc.
Proof.
  intros H. unfold regret_floor. set (a := Qcabs p) in *. clearbody a. qc_lra.
Qed.

(** With a nonzero pot the loop never stops early: it ends on the last
    iteration, and every sample it takes is above the floor. *)
Lemma biased_loop p keys its bound nm ex :
  (1 <= Qcabs p)%Qc → keys ≠ [] → table_biased p nm →
  let st := loop p keys its bound nm ex in
  st.1.1 = (if its is [] then bound else Some (List.last its 0%Z)) ∧
  ∃ samples, st.2 = ex ++ samples ∧
    length samples = length (filter (λ i, (i `mod` 100 = 0)%Z) its) ∧
    Forall (λ e, (regret_floor p <= e)%Qc) samples.
Proof.
  intros Hp Hk. revert bound nm ex.
  induction its as [| iteration its IH]; intros bound nm ex Hb; cbv zeta.
  - cbn. split; [done |]. exists []. by rewrite app_nil_r.
  - cbn [loop]. cbv zeta.
    assert (Hb' : table_biased p (pass p keys nm)) by by apply table_biased_pass.
    pose proof (exploitability_biased p _ Hb' (pass_nonempty p keys nm Hk)) as He.
    assert (Hno : fltb (_calculate_exploitability (pass p keys nm)) f0_001 = false).
    { apply fltb_false. pose proof (regret_floor_bound p Hp) as Hf.
      set (e := _calculate_exploitability _) in *. set (fl := regret_floor p) in *.
      clearbody e fl. qc_lra. }
    rewrite Hno, filter_cons.
    assert (Hlast : (if its is [] then Some iteration else Some (List.last its 0%Z))
                    = Some (List.last (iteration :: its) 0%Z)).
    { destruct its; reflexivity. }
    destruct (Z.eqb_spec (iteration `mod` 100) 0) as [Hmod | Hmod].
    + destruct (IH (Some iteration) (pass p keys nm)
                  (ex ++ [_calculate_exploitability (pass p keys nm)]) Hb')
        as (H1 & samples & H2 & H3 & H4).
      cbv zeta in *. rewrite decide_True by done.
      split; [by rewrite H1, Hlast |].
      exists (_calculate_exploitability (pass p keys nm) :: samples).
      split; [by rewrite H2, <- app_assoc |].
      split; [cbn; by rewrite H3 | by constructor].
    + destruct (IH (Some iteration) (pass p keys nm) ex Hb') as (H1 & samples & H2 & H3 & H4).
      cbv zeta in *. rewrite decide_False by done.
      split; [by rewrite H1, Hlast |].
      exists samples. done.
Qed.

Lemma py_range_snoc n : (1 <= n)%Z → py_range n = py_range (n - 1) ++ [(n - 1)%Z].
Proof.
  intros Hn. unfold py_range.
  replace n with ((n - 1) + 1)%Z at 1 by lia.
  rewrite seqZ_app by lia. reflexivity.
Qed.

Lemma py_range_last n : (1 <= n)%Z → List.last (py_range n) 0%Z = (n - 1)%Z.
Proof. intros Hn. rewrite py_range_snoc by done. apply last_last. Qed.

(** [range(n)] holds [ceil(n / 100)] multiples of 100. *)
Lemma py_range_samples n :
  (0 <= n)%Z →
  length (filter (λ i, (i `mod` 100 = 0)%Z) (py_range n)) = Z.to_nat ((n + 99) / 100).
Proof.
  revert n. apply natlike_ind.
  - reflexivity.
  - intros n Hn IH. rewrite py_range_snoc by lia.
    replace (Z.succ n - 1)%Z with n by lia.
    rewrite list.filter_app, length_app, IH, filter_cons, filter_nil.
    destruct (decide (n `mod` 100 = 0)%Z) as [Hm | Hm]; cbn [length].
    + replace ((Z.succ n + 99) / 100)%Z with ((n + 99) / 100 + 1)%Z.
      * rewrite Z2Nat.inj_add; [done | | lia]. apply Z.div_pos; lia.
      * pose proof (Z.div_mod n 100 ltac:(lia)) as E.
        pose proof (Z.mod_pos_bound (n + 99) 100 ltac:(lia)).
        pose proof (Z.mod_pos_bound (Z.succ n + 99) 100 ltac:(lia)).
        pose proof (Z.div_mod (n + 99) 100 ltac:(lia)).
        pose proof (Z.div_mod (Z.succ n + 99) 100 ltac:(lia)). lia.
    + replace ((Z.succ n + 99) / 100)%Z with ((n + 99) / 100)%Z; [lia |].
      pose proof (Z.div_mod n 100 ltac:(lia)) as E.
      pose proof (Z.mod_pos_bound n 100 ltac:(lia)).
      pose proof (Z.mod_pos_bound (n + 99) 100 ltac:(lia)).
      pose proof (Z.mod_pos_bound (Z.succ n + 99) 100 ltac:(lia)).
      pose proof (Z.div_mod (n + 99) 100 ltac:(lia)).
      pose proof (Z.div_mod (Z.succ n + 99) 100 ltac:(lia)). lia.
Qed.

Lemma Z2Qc_abs z : (z ≠ 0)%Z → (1 <= Qcabs (Z2Qc z))%Qc.
Proof.
  intros Hz. destruct (Z.lt_ge_cases z 0) as [H | H].
  - assert (Hle : (Z2Qc z <= Z2Qc (-1))%Qc) by (apply Z2Qc_le; lia).
    rewrite Qcabs_neg.
    + set (x := Z2Qc z) in *. clearbody x. qc_lra.
    + set (x := Z2Qc z) in *. clearbody x. qc_lra.
  - assert (Hle : (Z2Qc 1 <= Z2Qc z)%Qc) by (apply Z2Qc_le; lia).
    rewrite Qcabs_pos.
    + set (x := Z2Qc z) in *. clearbody x. qc_lra.
    + set (x := Z2Qc z) in *. clearbody x. qc_lra.
Qed.

Lemma player_keys_nonempty gs : players gs ≠ [] → player_keys gs ≠ [].
Proof. unfold player_keys. by destruct (players gs). Qed.

(** The result of a solve with a nonzero pot. *)
Lemma nonzero_pot_result gs n :
  pot gs ≠ 0%Z → (Z.abs (pot gs) < float_overflow_bound)%Z → players gs ≠ [] → (1 <= n)%Z →
  ∃ r, solve_strategy gs n = Ret r ∧
       SolveResult.iterations r = n ∧
       length (SolveResult.convergence_history r) = Z.to_nat ((n + 99) / 100) ∧
       Forall (λ e, (regret_floor (Z2Qc (pot gs)) <= e)%Qc) (SolveResult.convergence_history r) ∧
       (regret_floor (Z2Qc (pot gs)) <= SolveResult.exploitability r)%Qc.
Proof.
  intros Hpot Hsmall Hpl Hn.
  rewrite (solve_strategy_pure gs _ n (float_of_int_small _ Hsmall)).
  destruct (biased_loop (Z2Qc (pot gs)) (player_keys gs) (py_range n) None ∅ []
              (Z2Qc_abs _ Hpot) (player_keys_nonempty gs Hpl) (table_biased_empty _))
    as (Hb & samples & Hs & Hlen & Hall).
  cbv zeta in *.
  assert (Hne : py_range n ≠ []) by (rewrite py_range_pos by lia; done).
  destruct (py_range n) as [| i its] eqn:Er; [done |]. rewrite <- Er in *.
  assert (Hb' : (loop (Z2Qc (pot gs)) (player_keys gs) (py_range n) None ∅ []).1.1
                = Some (n - 1)%Z).
  { rewrite Hb, Er, <- Er. by rewrite py_range_last. }
  unfold result_of. rewrite Hb'. eexists. split; [reflexivity |].
  cbn [SolveResult.iterations SolveResult.convergence_history SolveResult.exploitability].
  rewrite Hs. cbn [app].
  split; [lia |]. split; [by rewrite Hlen, py_range_samples by lia |].
  split; [exact Hall |].
  assert (Hsne : samples ≠ []).
  { intros E. rewrite E in Hlen. rewrite py_range_pos in Hlen by lia.
    rewrite filter_cons in Hlen. by rewrite decide_True in Hlen by done. }
  destruct (exists_last Hsne) as (l' & e & ->).
  rewrite last_last. apply Forall_app in Hall as [_ He].
  by inversion He.
Qed.

(** * The two endpoints, case by case *)

Section Endpoints.
Variable state_hash : GTOGameState → Z.

(** What the strategy endpoint does: the cache lookup, then the solve, the
    response and the guarded cache write. *)
Lemma compute_gto_strategy_cases gs n w :
  compute_gto_strategy state_hash gs n w =
    match
      match redis_client w with
      | Some store =>
          match store_get store (now w) (strategy_cache_key state_hash gs) with
          | Some (StrategyJson response) => (Some response, w)
          | Some _ => (None, add_log (CacheReadFailed ValidationError) w)
          | None => (None, w)
          end
      | None => (None, w)
      end
    with
    | (Some response, w1) => (Ok200 response, w1)
    | (None, w1) =>
        match solve_strategy gs n with
        | Raise e => (Error500 e, add_log (StrategyError e) (add_log (CFRSolveError e) w1))
        | Ret r =>
            match strategy_response gs r with
            | Raise e => (Error500 e, add_log (StrategyError e) w1)
            | Ret response =>
                (Ok200 response,
                 (cache_strategy (strategy_cache_key state_hash gs) r response w1).2)
            end
        end
    end.
Proof.
  unfold compute_gto_strategy. cbv zeta.
  unfold cfr_solver_solve_strategy, cache_strategy, try_except, lift, logger,
    redis_connected, redis_get, redis_setex.
  unfold mbind, service_bind, mret, service_ret.
  destruct w as [[store |] t l]; cbv beta iota; cbn [redis_client now log];
    try (destruct (store_get store t _) as [[response | s e i | pr] |]);
    cbv beta iota; cbn [redis_client now log]; try reflexivity;
    (destruct (solve_strategy gs n) as [r | e']; cbv beta iota; [| reflexivity]);
    (destruct (strategy_response gs r) as [response' | e'']; cbv beta iota;
     [| reflexivity]);
    cbn [redis_client now log]; try (destruct (fltb _ _)); reflexivity.
Qed.

Lemma get_gto_analysis_cases gs n w :
  get_gto_analysis gs n w =
    match solve_strategy gs n with
    | Raise e => (Error500 e, add_log (AnalysisError e) (add_log (CFRSolveError e) w))
    | Ret r =>
        match analysis_response gs r with
        | Raise e => (Error500 e, add_log (AnalysisError e) w)
        | Ret analysis => (Ok200 analysis, w)
        end
    end.
Proof.
  unfold get_gto_analysis. cbv zeta.
  unfold cfr_solver_solve_strategy, try_except, lift, logger.
  unfold mbind, service_bind, mret, service_ret.
  destruct (solve_strategy gs n) as [r | e]; cbv beta iota; [| reflexivity].
  destruct (analysis_response gs r); reflexivity.
Qed.

End Endpoints.

(** * What every solve returns *)

Lemma regret_fold_nonneg (regrets : list float) t c :
  (0 <= t)%Qc → (0 <= c)%Z →
  let r := foldl (λ '(total_regret, node_count) regret,
                    ((total_regret + Qcabs regret)%Qc, (node_count + 1)%Z))
                 (t, c) regrets in
  (0 <= r.1)%Qc ∧ (0 <= r.2)%Z.
Proof.
  revert t c. induction regrets as [| x regrets IH]; intros t c Ht Hc; cbv zeta; [done |].
  cbn [foldl]. apply IH; [| lia].
  pose proof (Qcabs_nonneg x) as Hx. set (a := Qcabs x) in *. clearbody a. qc_lra.
Qed.

Lemma regret_totals_nonneg nm : (0 <= (regret_totals nm).1)%Qc ∧ (0 <= (regret_totals nm).2)%Z.
Proof.
  unfold regret_totals.
  apply (map_fold_weak_ind (λ r (_ : gmap string Node), (0 <= r.1)%Qc ∧ (0 <= r.2)%Z)).
  - split; [apply Qcle_refl | done].
  - intros key node m [t c] _ [Ht Hc]. by apply regret_fold_nonneg.
Qed.

Lemma exploitability_nonneg nm : (0 <= _calculate_exploitability nm)%Qc.
Proof.
  rewrite calculate_exploitability_totals.
  destruct (regret_totals_nonneg nm) as [Ht Hc].
  destruct (Z.ltb_spec 0 (regret_totals nm).2) as [Hpos | Hneg]; [| apply Qcle_refl].
  apply Qc_le_div.
  - apply (Z2Qc_lt 0). lia.
  - by rewrite Qcmult_0_l.
Qed.

(** How far the loop runs: over a prefix [ran] of the iterations, taking one
    non-negative sample at each multiple of 100, and leaving iterations unrun
    only after a sample below the threshold. *)
Lemma loop_run p keys its bound nm ex :
  ∃ ran rest samples,
    its = ran ++ rest ∧
    (its ≠ [] → ran ≠ []) ∧
    (loop p keys its bound nm ex).1.1
      = (if ran is [] then bound else Some (List.last ran 0%Z)) ∧
    (loop p keys its bound nm ex).2 = ex ++ samples ∧
    length samples = length (filter (λ i, (i `mod` 100 = 0)%Z) ran) ∧
    Forall (λ e, (0 <= e)%Qc) samples ∧
    (rest ≠ [] →
       samples ≠ [] ∧ (List.last samples 0 < f0_001)%Qc ∧
       (List.last ran 0 `mod` 100 = 0)%Z).
Proof.
  revert bound nm ex. induction its as [| i its IH]; intros bound nm ex.
  - exists [], [], []. cbn. rewrite app_nil_r. repeat split; done.
  - cbn [loop]. cbv zeta.
    pose proof (exploitability_nonneg (pass p keys nm)) as Hnn.
    set (e := _calculate_exploitability (pass p keys nm)) in *.
    destruct (Z.eqb_spec (i `mod` 100) 0) as [Hmod | Hmod].
    + destruct (fltb e f0_001) eqn:Hconv.
      * exists [i], its, [e]. cbn [fst snd app List.last].
        rewrite filter_cons, decide_True by done.
        repeat split; try done.
        -- by constructor.
        -- by apply fltb_true.
      * destruct (IH (Some i) (pass p keys nm) (ex ++ [e]))
          as (ran & rest & samples & E & Hne & Hb & Hs & Hlen & Hall & Hrest).
        exists (i :: ran), rest, (e :: samples).
        split; [by rewrite E |]. split; [done |].
        split; [rewrite Hb; by destruct ran |].
        split; [by rewrite Hs, <- app_assoc |].
        split; [rewrite filter_cons, decide_True by done; cbn; by rewrite Hlen |].
        split; [by constructor |].
        intros Hr. destruct (Hrest Hr) as (Hsne & Hlast & Hm).
        split; [done |].
        assert (Hran : ran ≠ []).
        { intros ->. rewrite app_nil_l in E. subst rest.
          cbn in Hlen. by destruct samples. }
        split.
        -- destruct samples; [done | exact Hlast].
        -- destruct ran; [done | exact Hm].
    + destruct (IH (Some i) (pass p keys nm) ex)
        as (ran & rest & samples & E & Hne & Hb & Hs & Hlen & Hall & Hrest).
      exists (i :: ran), rest, samples.
      split; [by rewrite E |]. split; [done |].
      split; [rewrite Hb; by destruct ran |].
      split; [done |].
      split; [by rewrite filter_cons, decide_False by done |].
      split; [done |].
      intros Hr. destruct (Hrest Hr) as (Hsne & Hlast & Hm).
      split; [done |]. split; [done |].
      destruct ran as [| j ran]; [| exact Hm].
      cbn in Hlen. by destruct samples.
Qed.

Lemma py_range_prefix n ran rest :
  py_range n = ran ++ rest → ran = py_range (Z.of_nat (length ran)).
Proof.
  intros E. apply list_eq. intros k.
  assert (Hlen : (length ran <= Z.to_nat n)%nat).
  { apply (f_equal length) in E. unfold py_range in E.
    rewrite length_seqZ, length_app in E. lia. }
  destruct (decide (k < length ran)%nat) as [Hk | Hk].
  - assert (H1 : py_range n !! k = Some (Z.of_nat k)).
    { unfold py_range. apply lookup_seqZ. lia. }
    rewrite E, lookup_app_l in H1 by done. rewrite H1. symmetry.
    unfold py_range. apply lookup_seqZ. lia.
  - rewrite lookup_ge_None_2 by lia. symmetry. apply lookup_ge_None_2.
    unfold py_range. rewrite length_seqZ. lia.
Qed.

Lemma result_of_loop_Ret p keys n :
  (1 <= n)%Z → is_Ret (result_of (loop p keys (py_range n) None ∅ [])).
Proof.
  intros Hn.
  destruct (loop_run p keys (py_range n) None ∅ [])
    as (ran & rest & samples & E & Hne & Hb & _).
  assert (Hran : ran ≠ []) by (apply Hne; rewrite py_range_pos by lia; done).
  unfold result_of. rewrite Hb. destruct ran; [done |]. by eexists.
Qed.

Lemma solve_strategy_returns gs n :
  (1 <= n)%Z → players gs = [] ∨ (Z.abs (pot gs) < float_overflow_bound)%Z →
  is_Ret (solve_strategy gs n).
Proof.
  intros Hn [Hpl | Hpot].
  - rewrite (solve_strategy_nobody gs n Hpl). by apply result_of_loop_Ret.
  - rewrite (solve_strategy_pure gs _ n (float_of_int_small _ Hpot)).
    by apply result_of_loop_Ret.
Qed.

Lemma float_of_int_large z :
  (float_overflow_bound <= Z.abs z)%Z → float_of_int z = Raise OverflowError.
Proof.
  intros H. unfold float_of_int.
  destruct (Z.ltb_spec (Z.abs z) float_overflow_bound); [lia | done].
Qed.

(** When a solve returned, the budget was positive and the pot, if anybody
    plays, fits a [float]. *)
Lemma solve_strategy_Ret_inv gs n r :
  solve_strategy gs n = Ret r →
  (1 <= n)%Z ∧ (players gs = [] ∨ (Z.abs (pot gs) < float_overflow_bound)%Z).
Proof.
  intros H.
  destruct (Z.le_gt_cases n 0) as [Hn | Hn].
  { by rewrite solve_strategy_no_iteration in H. }
  split; [lia |].
  destruct (decide (players gs = [])) as [Hpl | Hpl]; [by left | right].
  destruct (Z.lt_ge_cases (Z.abs (pot gs)) float_overflow_bound) as [Hlt | Hge]; [done |].
  rewrite (solve_strategy_overflow gs n OverflowError) in H; [done | lia | done |].
  by apply float_of_int_large.
Qed.

(** With a nonzero pot and somebody playing, no result passes the cache gate. *)
Lemma solve_floor gs n r :
  pot gs ≠ 0%Z → players gs ≠ [] → solve_strategy gs n = Ret r →
  (f0_01 <= SolveResult.exploitability r)%Qc.
Proof.
  intros Hpot Hpl Hsolve.
  destruct (solve_strategy_Ret_inv gs n r Hsolve) as [Hn [Hnil | Hsmall]]; [done |].
  destruct (nonzero_pot_result gs n Hpot Hsmall Hpl Hn) as (r' & Hr' & _ & _ & _ & He).
  rewrite Hsolve in Hr'. injection Hr' as <-.
  pose proof (regret_floor_bound _ (Z2Qc_abs _ Hpot)) as Hf.
  set (e := SolveResult.exploitability r) in *. set (fl := regret_floor _) in *.
  clearbody e fl. qc_lra.
Qed.



(** * Index bounds *)

Lemma list_index_in_range {A} (l : list A) (j : Z) :
  (- Z.of_nat (length l) <= j < Z.of_nat (length l))%Z → is_Ret (list_index l j).
Proof.
  intros Hj. unfold list_index.
  set (k := if (j <? 0)%Z then (j + Z.of_nat (length l))%Z else j).
  assert (Hk : (0 <= k < Z.of_nat (length l))%Z).
  { unfold k. destruct (Z.ltb_spec j 0); lia. }
  destruct (Z.ltb_spec k 0); [lia |].
  destruct (lookup_lt_is_Some_2 l (Z.to_nat k) ltac:(lia)) as [x ->]. by eexists.
Qed.

Lemma list_index_out_of_range {A} (l : list A) (j : Z) :
  ¬ (- Z.of_nat (length l) <= j < Z.of_nat (length l))%Z →
  list_index l j = Raise IndexError.
Proof.
  intros Hj. unfold list_index.
  set (k := if (j <? 0)%Z then (j + Z.of_nat (length l))%Z else j).
  assert (Hk : (k < 0 ∨ Z.of_nat (length l) <= k)%Z).
  { unfold k. destruct (Z.ltb_spec j 0); lia. }
  destruct (Z.ltb_spec k 0); [done |].
  by rewrite lookup_ge_None_2 by lia.
Qed.

Lemma generate_info_set_out_of_range gs j :
  ¬ (- Z.of_nat (length (players gs)) <= j < Z.of_nat (length (players gs)))%Z →
  _generate_info_set gs j = Raise IndexError.
Proof.
  intros Hj. unfold _generate_info_set. by rewrite list_index_out_of_range.
Qed.

Lemma generate_info_set_in_range gs j :
  (- Z.of_nat (length (players gs)) <= j < Z.of_nat (length (players gs)))%Z →
  is_Ret (_generate_info_set gs j).
Proof.
  intros Hj. unfold _generate_info_set.
  destruct (list_index_in_range (players gs) j Hj) as [pd ->]. by eexists.
Qed.

Lemma generate_info_set_players gs j key :
  _generate_info_set gs j = Ret key → players gs ≠ [].
Proof.
  intros H Hpl. apply generate_info_set_key in H.
  unfold player_keys in H. rewrite Hpl in H. by apply elem_of_nil in H.
Qed.

Section Strategy.
Variable state_hash : GTOGameState → Z.

Lemma compute_gto_strategy_miss gs n w :
  (redis_get (strategy_cache_key state_hash gs) w).1 = Ret None →
  compute_gto_strategy state_hash gs n w =
    match solve_strategy gs n with
    | Raise e => (Error500 e, add_log (StrategyError e) (add_log (CFRSolveError e) w))
    | Ret r =>
        match strategy_response gs r with
        | Raise e => (Error500 e, add_log (StrategyError e) w)
        | Ret response =>
            (Ok200 response,
             (cache_strategy (strategy_cache_key state_hash gs) r response w).2)
        end
    end.
Proof.
  intros Hmiss. rewrite compute_gto_strategy_cases.
  unfold redis_get in Hmiss. cbn in Hmiss.
  destruct (redis_client w) as [store |]; [| done].
  injection Hmiss as ->. done.
Qed.

Lemma compute_gto_strategy_hit gs n w response :
  (redis_get (strategy_cache_key state_hash gs) w).1 = Ret (Some (StrategyJson response)) →
  compute_gto_strategy state_hash gs n w = (Ok200 response, w).
Proof.
  intros Hhit. rewrite compute_gto_strategy_cases.
  unfold redis_get in Hhit. cbn in Hhit.
  destruct (redis_client w) as [store |]; [| done].
  injection Hhit as ->. done.
Qed.

Lemma cache_strategy_client key r response w :
  (f0_01 <= SolveResult.exploitability r)%Qc →
  redis_client (cache_strategy key r response w).2 = redis_client w.
Proof. intros H. by rewrite cache_strategy_skip. Qed.

Lemma strategy_response_players gs r response :
  strategy_response gs r = Ret response → players gs ≠ [].
Proof.
  unfold strategy_response.
  destruct (_generate_info_set gs (current_player gs)) as [key |] eqn:E; [| done].
  intros _. by eapply generate_info_set_players.
Qed.

End Strategy.




Section StrategyEndpoint.
Variable state_hash : GTOGameState → Z.

Lemma batch_entry_rejected gs n w store s e i r response :
  redis_client w = Some store →
  store_get store (now w) (strategy_cache_key state_hash gs) = Some (BatchResultJson s e i) →
  solve_strategy gs n = Ret r →
  strategy_response gs r = Ret response →
  compute_gto_strategy state_hash gs n w =
    (Ok200 response,
     (cache_strategy (strategy_cache_key state_hash gs) r response
        (add_log (CacheReadFailed ValidationError) w)).2).
Proof.
  intros Hstore Hentry Hsolve Hresp.
  by rewrite compute_gto_strategy_cases, Hstore, Hentry, Hsolve, Hresp.
Qed.

End StrategyEndpoint.

(** * The batch job and its status *)

Section BatchStatus.
Variable state_hash : GTOGameState → Z.

Lemma progress_key_ne batch_id gs : progress_key batch_id ≠ strategy_cache_key state_hash gs.
Proof. unfold progress_key, strategy_cache_key. cbn. discriminate. Qed.

(** One turn of the loop with Redis connected. *)
Lemma batch_scenario_connected batch_id total n c st sc r w store :
  solve_strategy sc n = Ret r →
  redis_client w = Some store →
  let rates := st.2 ++ [(1 - SolveResult.exploitability r)%Qc] in
  let progress :=
    {| TrainingProgress.completed := st.1 + 1;
       TrainingProgress.total := total;
       TrainingProgress.current_exploitability := SolveResult.exploitability r;
       TrainingProgress.average_convergence_rate :=
         (py_sum rates / Z2Qc (Z.of_nat (length rates)))%Qc;
       TrainingProgress.estimated_time_remaining := ((total - (st.1 + 1)) * 2)%Z |} in
  let store1 := <[progress_key batch_id := ((now w + 600)%Z, ProgressJson progress)]> store in
  let store2 :=
    if c && fltb (SolveResult.exploitability r) f0_01
    then <[strategy_cache_key state_hash sc :=
             ((now w + 3600)%Z,
              BatchResultJson (SolveResult.strategy r) (SolveResult.exploitability r)
                (SolveResult.iterations r))]> store1
    else store1 in
  batch_scenario state_hash batch_id total n c st sc w =
    (Ret ((st.1 + 1)%Z, rates),
     {| redis_client := Some store2; now := now w; log := log w |}).
Proof.
  intros Hsolve Hstore. cbv zeta. destruct st as [completed rates0].
  unfold batch_scenario.
  rewrite service_bind_unfold, (solve_service_Ret _ _ _ _ Hsolve).
  unfold cache_batch_result, redis_connected, redis_setex.
  unfold mbind, service_bind, mret, service_ret.
  destruct w as [client t l]. cbn [redis_client now log] in *. subst client.
  cbv beta iota. cbn [redis_client now log fst snd].
  rewrite andb_true_r.
  destruct (c && fltb _ _); reflexivity.
Qed.

Lemma batch_loop_connected batch_id total n c scenarios st w store :
  Forall (λ sc, is_Ret (solve_strategy sc n)) scenarios →
  redis_client w = Some store →
  (scenarios = [] → progress_recorded store (now w + 600) batch_id st.1 total) →
  ∃ st' store',
    batch_loop state_hash batch_id total n c scenarios st w =
      (Ret st', {| redis_client := Some store'; now := now w; log := log w |}) ∧
    st'.1 = (st.1 + Z.of_nat (length scenarios))%Z ∧
    progress_recorded store' (now w + 600) batch_id st'.1 total.
Proof.
  intros Hall. revert st w store.
  induction Hall as [| sc rest [r Hr] _ IH]; intros st w store Hstore Hrec.
  - exists st, store. split; [| split].
    + unfold batch_loop. cbn. destruct w. cbn in *. by subst.
    + cbn. lia.
    + by apply Hrec.
  - pose proof (batch_scenario_connected batch_id total n c st sc r w store Hr Hstore) as E1.
    cbv zeta in E1.
    set (st1 := ((st.1 + 1)%Z, st.2 ++ [(1 - SolveResult.exploitability r)%Qc])) in *.
    set (store1 := <[progress_key batch_id := _]> store) in *.
    set (store2 := if c && _ then _ else store1) in *.
    set (w1 := {| redis_client := Some store2; now := now w; log := log w |}) in *.
    assert (Hrec1 : progress_recorded store2 (now w1 + 600) batch_id st1.1 total).
    { eexists. split.
      - unfold store2. destruct (c && _).
        + rewrite lookup_insert_ne by (symmetry; apply progress_key_ne).
          unfold store1. by rewrite lookup_insert_eq.
        + unfold store1. by rewrite lookup_insert_eq.
      - repeat split. }
    destruct (IH st1 w1 store2 eq_refl (λ _, Hrec1)) as (st' & store' & E & Hc & Hrec').
    exists st', store'. split; [| split].
    + unfold batch_loop in *. cbn [service_for_each].
      rewrite service_bind_unfold, E1. cbv beta iota. exact E.
    + rewrite Hc. unfold st1. cbn [fst length]. lia.
    + exact Hrec'.
Qed.


Lemma get_batch_status_default batch_id w :
  (redis_get (progress_key batch_id) w).1 = Ret None →
  get_batch_status batch_id w = (Ok200 default_progress, w).
Proof.
  unfold get_batch_status. cbv zeta. unfold redis_get.
  unfold mbind, service_bind, mret, service_ret. cbv beta iota. cbn [fst].
  by intros [= ->].
Qed.

(** The state a job leaves when all its scenarios are solvable. *)
Lemma finished_batch batch_id scenarios n c w store :
  scenarios ≠ [] →
  Forall (λ sc, is_Ret (solve_strategy sc n)) scenarios →
  redis_client w = Some store →
  ∃ store',
    process_batch_background state_hash batch_id scenarios n c w
      = {| redis_client := Some store'; now := now w; log := log w |} ∧
    progress_recorded store' (now w + 600) batch_id
      (Z.of_nat (length scenarios)) (Z.of_nat (length scenarios)).
Proof.
  intros Hne Hall Hstore.
  destruct (batch_loop_connected batch_id (Z.of_nat (length scenarios)) n c scenarios
              (0%Z, []) w store Hall Hstore) as (st' & store' & E & Hc & Hrec); [done |].
  exists store'. split.
  - unfold process_batch_background. cbv zeta. by rewrite E.
  - by rewrite Hc in Hrec.
Qed.

(** The state a job leaves when its first failing scenario comes after a
    non-empty run of solvable ones. *)
Lemma aborted_batch batch_id pre bad post n c e w store :
  pre ≠ [] →
  Forall (λ sc, is_Ret (solve_strategy sc n)) pre →
  solve_strategy bad n = Raise e →
  redis_client w = Some store →
  ∃ store',
    process_batch_background state_hash batch_id (pre ++ bad :: post) n c w
      = {| redis_client := Some store'; now := now w;
           log := log w ++ [CFRSolveError e; BatchBackgroundError e] |} ∧
    progress_recorded store' (now w + 600) batch_id
      (Z.of_nat (length pre)) (Z.of_nat (length (pre ++ bad :: post))).
Proof.
  intros Hne Hall Hbad Hstore.
  set (total := Z.of_nat (length (pre ++ bad :: post))).
  destruct (batch_loop_connected batch_id total n c pre (0%Z, []) w store Hall Hstore)
    as (st' & store' & E & Hc & Hrec); [done |].
  exists store'. split.
  - unfold process_batch_background. cbv zeta. fold total.
    unfold batch_loop in *. rewrite service_for_each_app, E.
    cbn [service_for_each]. rewrite service_bind_unfold.
    rewrite (batch_scenario_failure _ _ _ _ _ _ _ _ _ Hbad).
    unfold add_log. cbn [redis_client now log]. by rewrite <- app_assoc.
  - by rewrite Hc in Hrec.
Qed.

End BatchStatus.

(** * The call amount and the pot odds *)

Lemma foldl_max_spec (xs : list Z) (x : Z) :
  let m := foldl (λ m y, if (m <? y)%Z then y else m) x xs in
  (x <= m)%Z ∧ (∀ y, y ∈ xs → (y <= m)%Z) ∧ (m = x ∨ m ∈ xs).
Proof.
  revert x. induction xs as [| y xs IH]; intros x; cbv zeta.
  - cbn. split; [lia |]. split; [| by left]. intros y Hy. by apply elem_of_nil in Hy.
  - cbn [foldl]. destruct (IH (if (x <? y)%Z then y else x)) as (H1 & H2 & H3).
    cbv zeta in *.
    set (m := foldl _ _ xs) in *.
    destruct (Z.ltb_spec x y).
    + split; [lia |]. split.
      * intros z Hz. apply elem_of_cons in Hz as [-> | Hz]; [done | by apply H2].
      * right. destruct H3 as [-> | H3]; [apply list_elem_of_here | by apply elem_of_cons; right].
    + split; [lia |]. split.
      * intros z Hz. apply elem_of_cons in Hz as [-> | Hz]; [lia | by apply H2].
      * destruct H3 as [-> | H3]; [by left | right; by apply elem_of_cons; right].
Qed.

Lemma py_max_int_spec xs m :
  py_max_int xs = Ret m → (∀ y, y ∈ xs → (y <= m)%Z) ∧ m ∈ xs.
Proof.
  destruct xs as [| x xs]; [done |]. cbn [py_max_int]. intros [= <-].
  destruct (foldl_max_spec xs x) as (H1 & H2 & H3). cbv zeta in *.
  split.
  - intros y Hy. apply elem_of_cons in Hy as [-> | Hy]; [done | by apply H2].
  - destruct H3 as [-> | H3]; [apply list_elem_of_here | by apply elem_of_cons; right].
Qed.

Lemma pot_odds_range pot call_amount :
  (0 <= pot)%Z → (0 <= call_amount)%Z →
  ∃ q, calculate_pot_odds pot call_amount = Ret q ∧ (0 <= q)%Qc ∧ (q <= 1)%Qc ∧
       ((0 < pot)%Z → (q < 1)%Qc) ∧
       (q = 0%Qc ↔ call_amount = 0%Z).
Proof.
  intros Hp Hc. unfold calculate_pot_odds.
  destruct (Z.eqb_spec call_amount 0) as [-> | Hne].
  - exists 0%Qc. repeat split; try done.
  - rewrite int_truediv_fraction by lia.
    eexists. split; [reflexivity |].
    assert (Hc' : (0 < Z2Qc call_amount)%Qc) by (apply (Z2Qc_lt 0); lia).
    assert (Hs : (Z2Qc call_amount <= Z2Qc (pot + call_amount))%Qc) by (apply Z2Qc_le; lia).
    assert (Hs' : (0 < pot)%Z → (Z2Qc call_amount < Z2Qc (pot + call_amount))%Qc).
    { intros H. apply Z2Qc_lt. lia. }
    set (a := Z2Qc call_amount) in *. set (b := Z2Qc (pot + call_amount)) in *.
    clearbody a b.
    assert (Hb : (0 < b)%Qc) by qc_lra.
    assert (Hinv : (0 < / b)%Qc) by by apply Qcinv_pos.
    assert (Hq : (a / b * b = a)%Qc).
    { unfold Qcdiv. rewrite <- Qcmult_assoc, (Qcmult_comm (/ b)), Qcmult_inv_r; [apply Qcmult_1_r |].
      intros ->. by apply Qclt_not_eq in Hb. }
    set (q := (a / b)%Qc) in *. clearbody q.
    assert (Hq0 : (0 < q)%Qc) by (qc_unfold; nra).
    split; [by apply Qclt_le_weak |].
    split; [| split; [| split]].
    + qc_unfold. nra.
    + intros H. specialize (Hs' H). qc_unfold. nra.
    + intros ->. by apply Qclt_not_eq in Hq0.
    + done.
Qed.

(** * Hand strength and equity *)

Lemma hand_strength_values hole_cards community_cards :
  calculate_hand_strength hole_cards community_cards ∈ [f0_3; f0_5; f0_7; f0_9].
Proof.
  unfold calculate_hand_strength. cbv zeta.
  destruct (String.eqb hole_cards ""); [set_solver |].
  repeat (destruct (existsb _ _); [set_solver |]). set_solver.
Qed.

Lemma clamp_fixed x : x ∈ [f0_3; f0_5; f0_7; f0_9] → pymin f0_9 (pymax f0_1 x) = x.
Proof.
  intros H. repeat (apply elem_of_cons in H as [-> | H]); [reflexivity .. |].
  by apply elem_of_nil in H.
Qed.

Lemma equity_is_hand_strength hole_cards community_cards :
  calculate_equity hole_cards community_cards
    = calculate_hand_strength hole_cards community_cards.
Proof. unfold calculate_equity. cbv zeta. apply clamp_fixed, hand_strength_values. Qed.

Lemma hand_strength_no_class hole_cards community_cards :
  hole_cards ≠ "" →
  existsb (str_contains hole_cards) hand_classes = false →
  calculate_hand_strength hole_cards community_cards = f0_3.
Proof.
  intros Hne H. unfold calculate_hand_strength. cbv zeta.
  destruct (String.eqb_spec hole_cards ""); [done |].
  change hand_classes with
    (["AA"; "KK"; "QQ"; "AKs"; "AKo"] ++ ["JJ"; "TT"; "AQs"; "AQo"; "AJs"; "KQs"]
       ++ ["99"; "88"; "77"; "AJo"; "ATs"; "KJs"; "QJs"]) in H.
  rewrite !existsb_app in H.
  apply orb_false_elim in H as [H1 H]. apply orb_false_elim in H as [H2 H3].
  by rewrite H1, H2, H3.
Qed.

Lemma two_cards_no_class :
  forallb (λ r1, forallb (λ s1, forallb (λ r2, forallb (λ s2,
    negb (existsb (str_contains (two_cards r1 s1 r2 s2)) hand_classes))
    suits) ranks) suits) ranks = true.
Proof. vm_compute. reflexivity. Qed.

(** * The analysis *)

Lemma distribution_dict3 s :
  is_distribution s →
  ∃ x y z, s = dict3 x y z ∧ (0 <= x)%Qc ∧ (0 <= y)%Qc ∧ (0 <= z)%Qc ∧ (x + y + z = 1)%Qc.
Proof.
  intros (Hkeys & Hnn & Hsum). unfold dict_keys, actions in Hkeys.
  destruct s as [| [k1 x] [| [k2 y] [| [k3 z] [| ? ?]]]]; try done.
  cbn in Hkeys. injection Hkeys as -> -> ->.
  exists x, y, z. split; [reflexivity |].
  cbn in Hnn. inversion Hnn as [| ? ? Hx Hnn']; subst.
  inversion Hnn' as [| ? ? Hy Hnn'']; subst.
  inversion Hnn'' as [| ? ? Hz _]; subst.
  repeat (split; [assumption |]).
  unfold py_sum in Hsum. cbn in Hsum. unfold float in *. rewrite <- Hsum. ring.
Qed.

Lemma default_strategy_distribution : is_distribution default_strategy.
Proof. apply (dict3_distribution f0_33 f0_33 f0_34); qc_lra. Qed.

(** The recommendation read off a three-action strategy: the most likely
    action, and the two others in descending order of probability. *)
Lemma decision_dict3 x y z (pot : Z) p :
  float_of_int pot = Ret p →
  ∃ best bp a1 a2,
    dict_argmax (dict3 x y z) = Ret best ∧
    dict_index (dict3 x y z) best = Ret bp ∧
    for_each (sorted_desc (dict3 x y z)) []
      (λ alternatives '(action, prob),
         if String.eqb action best then Ret alternatives
         else
           ev ← float_mul_int (bp - prob) pot;
           Ret (alternatives ++ [{| alt_action := action; alt_probability := prob;
                                    ev_difference := ev |}]))
      = Ret [a1; a2] ∧
    dict_get (dict3 x y z) best = Some bp ∧
    (x <= bp)%Qc ∧ (y <= bp)%Qc ∧ (z <= bp)%Qc ∧
    alt_action a1 ≠ best ∧ alt_action a2 ≠ best ∧ alt_action a1 ≠ alt_action a2 ∧
    dict_get (dict3 x y z) (alt_action a1) = Some (alt_probability a1) ∧
    dict_get (dict3 x y z) (alt_action a2) = Some (alt_probability a2) ∧
    (alt_probability a2 <= alt_probability a1)%Qc ∧ (alt_probability a1 <= bp)%Qc ∧
    ev_difference a1 = ((bp - alt_probability a1) * p)%Qc ∧
    ev_difference a2 = ((bp - alt_probability a2) * p)%Qc ∧
    (best = "raise" ↔ (x < z)%Qc ∧ (y < z)%Qc) ∧
    (best = "fold" ↔ (y <= x)%Qc ∧ (z <= x)%Qc).
Proof.
  intros Hp. unfold dict_argmax, sorted_desc, dict3, dict_index, float_mul_int.
  cbn [foldl insert_desc fst snd].
  destruct (fltb x y) eqn:Exy, (fltb y z) eqn:Eyz, (fltb x z) eqn:Exz;
    cbn [foldl insert_desc fst snd]; rewrite ?Exy, ?Eyz, ?Exz;
    cbn [foldl insert_desc fst snd dict_get String.eqb Ascii.eqb Bool.eqb for_each];
    rewrite ?Hp; rewrite ?bind_Ret; cbn [app];
    first [apply fltb_true in Exy | apply fltb_false in Exy];
    first [apply fltb_true in Eyz | apply fltb_false in Eyz];
    first [apply fltb_true in Exz | apply fltb_false in Exz];
    (eexists _, _, _, _;
     split; [reflexivity |]; split; [reflexivity |]; split; [reflexivity |];
     cbn [alt_action alt_probability ev_difference dict_get String.eqb Ascii.eqb Bool.eqb];
     split; [reflexivity |]).
  all: repeat match goal with
              | |- _ ∧ _ => split
              | |- _ ↔ _ => split
              | |- _ → _ => intros
              end.
  all: try discriminate; try reflexivity.
  all: try (destruct_and?; qc_lra).
Qed.

(** The analysis of a request whose strategy entry has the three actions. *)
Lemma analysis_response_dict3 gs r pd key x y z p po :
  list_index (players gs) (current_player gs) = Ret pd →
  _generate_info_set gs (current_player gs) = Ret key →
  default default_strategy (SolveResult.strategy r !! key) = dict3 x y z →
  float_of_int (pot gs) = Ret p →
  calculate_pot_odds (pot gs) (get_call_amount gs) = Ret po →
  ∃ best bp a1 a2,
    analysis_response gs r =
      Ret {| GTOAnalysis.decision :=
               {| GTODecision.action := best;
                  GTODecision.amount :=
                    if String.eqb best "raise" || String.eqb best "bet"
                    then Some (py_int (f0_75 * p)) else None;
                  GTODecision.probability := bp;
                  GTODecision.alternatives := [a1; a2];
                  GTODecision.reasoning_text :=
                    generate_reasoning best
                      (calculate_hand_strength (default "" (holeCards pd)) (community_cards gs))
                      po;
                  GTODecision.exploitability := SolveResult.exploitability r;
                  GTODecision.confidence := confidence_of (SolveResult.exploitability r) |};
             GTOAnalysis.hand_strength :=
               calculate_hand_strength (default "" (holeCards pd)) (community_cards gs);
             GTOAnalysis.position := default "BTN" (position pd);
             GTOAnalysis.pot_odds := po;
             GTOAnalysis.implied_odds := (po * f1_2)%Qc;
             GTOAnalysis.equity :=
               calculate_equity (default "" (holeCards pd)) (community_cards gs);
             GTOAnalysis.expected_value :=
               (calculate_equity (default "" (holeCards pd)) (community_cards gs) * p)%Qc;
             GTOAnalysis.risk_assessment :=
               {| variance := pymin 1 (SolveResult.exploitability r * Z2Qc 10);
                  drawouts := 0;
                  bluff_catchers := [] |} |} ∧
    dict_get (dict3 x y z) best = Some bp ∧
    (x <= bp)%Qc ∧ (y <= bp)%Qc ∧ (z <= bp)%Qc ∧
    alt_action a1 ≠ best ∧ alt_action a2 ≠ best ∧ alt_action a1 ≠ alt_action a2 ∧
    dict_get (dict3 x y z) (alt_action a1) = Some (alt_probability a1) ∧
    dict_get (dict3 x y z) (alt_action a2) = Some (alt_probability a2) ∧
    (alt_probability a2 <= alt_probability a1)%Qc ∧ (alt_probability a1 <= bp)%Qc ∧
    ev_difference a1 = ((bp - alt_probability a1) * p)%Qc ∧
    ev_difference a2 = ((bp - alt_probability a2) * p)%Qc ∧
    (best = "raise" ↔ (x < z)%Qc ∧ (y < z)%Qc) ∧
    (best = "fold" ↔ (y <= x)%Qc ∧ (z <= x)%Qc).
Proof.
  intros Hpd Hkey Hs Hp Hpo.
  destruct (decision_dict3 x y z (pot gs) p Hp)
    as (best & bp & a1 & a2 & Hbest & Hbp & Halts & Hrest).
  exists best, bp, a1, a2. split; [| exact Hrest].
  unfold analysis_response. rewrite Hpd, bind_Ret, Hkey, bind_Ret. cbv zeta.
  rewrite Hs, Hbest, bind_Ret, Hbp, bind_Ret, Halts, bind_Ret, Hpo, bind_Ret.
  unfold float_mul_int. rewrite Hp, !bind_Ret.
  destruct (String.eqb best "raise" || String.eqb best "bet"); rewrite !bind_Ret; reflexivity.
Qed.

Lemma solved_entry gs n r j key :
  solve_strategy gs n = Ret r → _generate_info_set gs j = Ret key →
  ∃ x y z, default default_strategy (SolveResult.strategy r !! key) = dict3 x y z ∧
           SolveResult.strategy r !! key = Some (dict3 x y z) ∧
           (0 <= x)%Qc ∧ (0 <= y)%Qc ∧ (0 <= z)%Qc ∧ (x + y + z = 1)%Qc.
Proof.
  intros Hsolve Hkey.
  destruct (solved_key_is_present gs n r j key Hsolve Hkey) as [s Hs].
  destruct (distribution_dict3 s (solved_strategy_distribution gs n r key s Hsolve Hs))
    as (x & y & z & -> & H).
  exists x, y, z. rewrite Hs. done.
Qed.

Lemma analysis_response_Ret gs r a :
  analysis_response gs r = Ret a →
  ∃ pd key p po,
    list_index (players gs) (current_player gs) = Ret pd ∧
    _generate_info_set gs (current_player gs) = Ret key ∧
    float_of_int (pot gs) = Ret p ∧
    calculate_pot_odds (pot gs) (get_call_amount gs) = Ret po.
Proof.
  unfold analysis_response.
  destruct (list_index _ _) as [pd |]; [| done]. rewrite bind_Ret.
  destruct (_generate_info_set _ _) as [key |]; [| done]. rewrite bind_Ret. cbv zeta.
  destruct (dict_argmax _) as [best |]; [| done]. rewrite bind_Ret.
  destruct (dict_index _ _) as [bp |]; [| done]. rewrite bind_Ret.
  destruct (for_each _ _ _) as [alts |]; [| done]. rewrite bind_Ret.
  destruct (calculate_pot_odds _ _) as [po |]; [| done]. rewrite bind_Ret.
  unfold float_mul_int.
  destruct (float_of_int (pot gs)) as [p |].
  - intros _. by exists pd, key, p, po.
  - destruct (_ || _); intros H; discriminate H.
Qed.




(** * Further properties of the solver *)



(** X2.  What every returned result reports.  [iterations] lies between 1 and
    the budget; the history holds one non-negative sample per started block of
    100 iterations, [ceil(iterations / 100)] in all; [exploitability] is the
    last sample; and the solve stops before its budget only right after a
    sample below 0.001, taken at an iteration that is a multiple of 100. *)
Theorem solve_result_samples gs n r :
  solve_strategy gs n = Ret r →
  (1 <= SolveResult.iterations r <= n)%Z ∧
  length (SolveResult.convergence_history r)
    = Z.to_nat ((SolveResult.iterations r + 99) / 100) ∧
  Forall (λ e, (0 <= e)%Qc) (SolveResult.convergence_history r) ∧
  SolveResult.exploitability r = List.last (SolveResult.convergence_history r) 0%Qc ∧
  ((SolveResult.iterations r < n)%Z →
     (SolveResult.exploitability r < f0_001)%Qc ∧
     ((SolveResult.iterations r - 1) `mod` 100 = 0)%Z).
Proof.
  intros Hsolve.
  destruct (solve_strategy_Ret gs n r Hsolve) as (p & keys & _ & Hres).
  destruct (result_of_Ret _ _ Hres) as (iteration & Hb & _ & He & Hi & Hh).
  destruct (loop_run p keys (py_range n) None ∅ [])
    as (ran & rest & samples & E & Hne & Hb' & Hs & Hlen & Hall & Hrest).
  rewrite Hb in Hb'. rewrite Hs in He, Hh. cbn [app] in He, Hh.
  assert (Hnil : ran ≠ []) by (intros ->; done).
  assert (Hit : iteration = List.last ran 0%Z).
  { destruct ran; [done |]. by injection Hb'. }
  clear Hb'. subst iteration.
  pose proof (py_range_prefix n ran rest E) as Hran.
  set (k := Z.of_nat (length ran)) in *.
  assert (Hk1 : (1 <= k)%Z) by (unfold k; destruct ran; [done | cbn; lia]).
  assert (Hkn : (k <= n)%Z).
  { apply (f_equal length) in E. unfold py_range in E.
    rewrite length_seqZ, length_app in E. unfold k. lia. }
  assert (Hlast : List.last ran 0%Z = (k - 1)%Z) by (rewrite Hran; by apply py_range_last).
  rewrite Hlast in Hi.
  rewrite Hi, Hh, He.
  replace (k - 1 + 1)%Z with k by lia.
  split; [lia |].
  split; [rewrite Hlen, Hran; apply py_range_samples; lia |].
  split; [exact Hall |]. split; [reflexivity |].
  intros Hlt.
  assert (Hr : rest ≠ []).
  { intros ->. rewrite app_nil_r in E. apply (f_equal length) in E.
    unfold py_range in E. rewrite length_seqZ in E. unfold k in Hlt. lia. }
  destruct (Hrest Hr) as (_ & Hconv & Hm).
  split; [exact Hconv | by rewrite <- Hlast].
Qed.

Lemma solve_result_samples_witness :
  ∃ r, solve_strategy (aces_preflop 3) 150 = Ret r ∧
       (1 <= SolveResult.iterations r <= 150)%Z ∧
       length (SolveResult.convergence_history r)
         = Z.to_nat ((SolveResult.iterations r + 99) / 100).
Proof.
  destruct (solve_strategy_returns (aces_preflop 3) 150) as [r Hr];
    [lia | right; by vm_compute |].
  exists r. split; [exact Hr |].
  destruct (solve_result_samples (aces_preflop 3) 150 r Hr) as (H1 & H2 & _).
  split; [exact H1 | exact H2].
Defined.

(** X3.  With a nonzero pot the solver never converges.  For every request
    with a nonzero pot that fits a [float], at least one player and a budget of
    at least one iteration, the solve runs its whole budget
    ([iterations = n]), takes [ceil(n / 100)] samples, and every sample, the
    reported exploitability included, is at least [4 * |pot| / 45], hence
    above the convergence threshold 0.001 and the cache gate 0.01. *)
Theorem nonzero_pot_never_converges gs n :
  pot gs ≠ 0%Z → (Z.abs (pot gs) < float_overflow_bound)%Z → players gs ≠ [] → (1 <= n)%Z →
  ∃ r, solve_strategy gs n = Ret r ∧
       SolveResult.iterations r = n ∧
       length (SolveResult.convergence_history r) = Z.to_nat ((n + 99) / 100) ∧
       Forall (λ e, (Z2Qc 4 * Qcabs (Z2Qc (pot gs)) / Z2Qc 45 <= e)%Qc)
              (SolveResult.convergence_history r) ∧
       (Z2Qc 4 * Qcabs (Z2Qc (pot gs)) / Z2Qc 45 <= SolveResult.exploitability r)%Qc ∧
       (f0_01 <= SolveResult.exploitability r)%Qc.
Proof.
  intros Hpot Hsmall Hpl Hn.
  destruct (nonzero_pot_result gs n Hpot Hsmall Hpl Hn) as (r & Hr & Hi & Hlen & Hall & He).
  exists r. repeat (split; [assumption |]).
  by apply (solve_floor gs n r).
Qed.

Lemma nonzero_pot_never_converges_witness :
  ∃ r, solve_strategy (aces_preflop (-7)) 250 = Ret r ∧
       SolveResult.iterations r = 250%Z ∧
       length (SolveResult.convergence_history r) = 3%nat ∧
       (f0_01 <= SolveResult.exploitability r)%Qc.
Proof.
  destruct (nonzero_pot_never_converges (aces_preflop (-7)) 250)
    as (r & Hr & Hi & Hlen & _ & _ & He).
  - discriminate.
  - by vm_compute.
  - discriminate.
  - lia.
  - exists r. split; [exact Hr |]. split; [exact Hi |]. split; [exact Hlen | exact He].
Defined.

Lemma player_keys_generated gs gs' :
  length (players gs) = length (players gs') →
  (∀ j, _generate_info_set gs j = _generate_info_set gs' j) →
  player_keys gs = player_keys gs'.
Proof.
  intros Hlen Hgen. apply list_eq. intros i. unfold player_keys.
  rewrite !list_lookup_fmap.
  destruct (players gs !! i) as [pd |] eqn:E.
  - destruct (lookup_lt_is_Some_2 (players gs') i) as [pd' E'].
    { rewrite <- Hlen. by eapply lookup_lt_Some. }
    rewrite E'. cbn. f_equal.
    pose proof (Hgen (Z.of_nat i)) as H.
    rewrite (generate_info_set_nat gs i pd E), (generate_info_set_nat gs' i pd' E') in H.
    by injection H.
  - rewrite (lookup_ge_None_2 (players gs') i); [done |].
    rewrite <- Hlen. by apply lookup_ge_None_1.
Qed.

(** X4.  The solve reads the request only through its pot and the players'
    info-set keys (street, hole cards, community cards, pot): two requests with
    the same pot, the same number of players and the same key for every player
    index get the same result, so [current_player], [history], [is_terminal]
    and the players' [invested] and [position] never matter. *)
Theorem solve_reads_pot_and_keys gs gs' n :
  pot gs = pot gs' →
  length (players gs) = length (players gs') →
  (∀ j, _generate_info_set gs j = _generate_info_set gs' j) →
  solve_strategy gs n = solve_strategy gs' n.
Proof.
  intros Hpot Hlen Hgen.
  pose proof (player_keys_generated gs gs' Hlen Hgen) as Hkeys.
  destruct (Z.le_gt_cases n 0) as [Hn | Hn].
  { by rewrite !solve_strategy_no_iteration. }
  destruct (float_of_int (pot gs)) as [p | e] eqn:Hp.
  - rewrite (solve_strategy_pure gs p n Hp).
    rewrite Hpot in Hp. rewrite (solve_strategy_pure gs' p n Hp). by rewrite Hkeys.
  - destruct (decide (players gs = [])) as [Hpl | Hpl].
    + assert (Hpl' : players gs' = []).
      { rewrite Hpl in Hlen. by destruct (players gs'). }
      by rewrite (solve_strategy_nobody gs n Hpl), (solve_strategy_nobody gs' n Hpl').
    + assert (Hpl' : players gs' ≠ []).
      { intros E. rewrite E in Hlen. by destruct (players gs). }
      rewrite (solve_strategy_overflow gs n e) by (lia || done).
      rewrite Hpot in Hp. by rewrite (solve_strategy_overflow gs' n e) by (lia || done).
Qed.

Lemma solve_reads_pot_and_keys_witness :
  solve_strategy (aces_preflop 3) 5 =
  solve_strategy
    {| street := "preflop"; pot := 3; community_cards := "";
       players := [seat "AsAh" 40 "SB"; seat "XX" 90 "CO"];
       current_player := 1; history := [[("action", "raise")]]; is_terminal := true |} 5.
Proof.
  apply (solve_reads_pot_and_keys (aces_preflop 3)); [reflexivity | reflexivity |].
  intros j. unfold _generate_info_set, list_index. cbn [players aces_preflop length].
  destruct (_ <? 0)%Z; [reflexivity |].
  destruct (Z.to_nat _) as [| [| m]]; reflexivity.
Defined.

(** * Further properties of the strategy endpoint *)

(** X5.  No request with a nonzero pot ever changes what Redis holds: whether
    the strategy endpoint answers from the cache, solves, or fails, the store
    after the call is the store before it.  (The solve of such a request never
    passes the gate [exploitability < 0.01].) *)
Theorem nonzero_pot_is_never_cached state_hash gs n w :
  pot gs ≠ 0%Z →
  redis_client (compute_gto_strategy state_hash gs n w).2 = redis_client w.
Proof.
  intros Hpot. rewrite compute_gto_strategy_cases.
  assert (Hrest : ∀ w1, redis_client w1 = redis_client w →
    redis_client
      (match solve_strategy gs n with
       | Raise e => (Error500 e, add_log (StrategyError e) (add_log (CFRSolveError e) w1))
       | Ret r =>
           match strategy_response gs r with
           | Raise e => (Error500 e, add_log (StrategyError e) w1)
           | Ret response =>
               (Ok200 response,
                (cache_strategy (strategy_cache_key state_hash gs) r response w1).2)
           end
       end).2 = redis_client w).
  { intros w1 Hw1. destruct (solve_strategy gs n) as [r | e] eqn:Hsolve; [| done].
    destruct (strategy_response gs r) as [response | e] eqn:Hresp; [| done].
    cbn [snd]. rewrite cache_strategy_client; [done |].
    apply (solve_floor gs n r Hpot); [| done].
    by eapply strategy_response_players. }
  destruct (redis_client w) as [store |] eqn:Hc.
  - destruct (store_get store (now w) _) as [[response | s e i | pr] |];
      [done | apply Hrest | apply Hrest | apply Hrest]; done.
  - by apply Hrest.
Qed.

Lemma nonzero_pot_is_never_cached_witness :
  redis_client (compute_gto_strategy sample_hash (aces_preflop 3) 5000 quiet_world).2
    = Some ∅.
Proof.
  apply (nonzero_pot_is_never_cached sample_hash (aces_preflop 3) 5000 quiet_world).
  discriminate.
Defined.



(** X7.  An entry written by the batch job is unreadable for the strategy
    endpoint, although both use the same key.  When the key of the request
    holds a live batch entry (strategy map, exploitability, iterations), the
    endpoint logs the cache read as failed with a validation error and goes on
    as after a miss: it solves, answers 200 with the fresh response, and
    overwrites the entry only if the fresh result passes the gate. *)
Theorem batch_cache_entry_is_rejected state_hash gs n w store s e i r response :
  redis_client w = Some store →
  store_get store (now w) (strategy_cache_key state_hash gs) = Some (BatchResultJson s e i) →
  solve_strategy gs n = Ret r →
  strategy_response gs r = Ret response →
  compute_gto_strategy state_hash gs n w =
    (Ok200 response,
     (cache_strategy (strategy_cache_key state_hash gs) r response
        (add_log (CacheReadFailed ValidationError) w)).2) ∧
  log (compute_gto_strategy state_hash gs n w).2
    = log w ++ [CacheReadFailed ValidationError].
Proof.
  intros Hstore Hentry Hsolve Hresp.
  rewrite (batch_entry_rejected state_hash gs n w store s e i r response) by done.
  split; [reflexivity |]. cbn [snd].
  unfold cache_strategy, redis_connected, redis_setex, add_log.
  unfold mbind, service_bind, mret, service_ret. cbv beta iota. cbn [redis_client now log].
  rewrite Hstore. by destruct (_ && _).
Qed.

Lemma batch_cache_entry_is_rejected_witness :
  let w := process_batch_background sample_hash "job" [aces_preflop 0] 1 true quiet_world in
  (∃ s e i, (redis_get (strategy_cache_key sample_hash (aces_preflop 0)) w).1
              = Ret (Some (BatchResultJson s e i))) ∧
  log w = [] ∧
  log (compute_gto_strategy sample_hash (aces_preflop 0) 1 w).2
    = log w ++ [CacheReadFailed ValidationError].
Proof.
  cbv zeta.
  set (w := process_batch_background sample_hash "job" [aces_preflop 0] 1 true quiet_world).
  assert (Hw : redis_client w = Some (default ∅ (redis_client w))) by (vm_compute; reflexivity).
  assert (Hentry : ∃ s e i,
            store_get (default ∅ (redis_client w)) (now w)
              (strategy_cache_key sample_hash (aces_preflop 0))
            = Some (BatchResultJson s e i))
    by (eexists _, _, _; vm_compute; reflexivity).
  destruct Hentry as (s & e & i & Hentry).
  assert (Hsolve : ∃ r, solve_strategy (aces_preflop 0) 1 = Ret r)
    by (apply solve_strategy_returns; [lia | by right]).
  destruct Hsolve as [r Hr].
  assert (Hresp : ∃ response, strategy_response (aces_preflop 0) r = Ret response).
  { unfold strategy_response.
    change (_generate_info_set (aces_preflop 0) (current_player (aces_preflop 0)))
      with (Ret "preflop|AsAh||0" : outcome string).
    rewrite bind_Ret. by eexists. }
  destruct Hresp as [response Hresp].
  split; [| split].
  - exists s, e, i. unfold redis_get. cbn [fst]. by rewrite Hw, Hentry.
  - vm_compute. reflexivity.
  - apply (proj2 (batch_cache_entry_is_rejected sample_hash (aces_preflop 0) 1 w _ s e i r
             response Hw Hentry Hr Hresp)).
Defined.

Lemma service_for_each_invariant {S A} (I : World → Prop) (l : list A) (s : S)
    (body : S → A → service S) w :
  (∀ s x w, x ∈ l → I w → I (body s x w).2) → I w → I (service_for_each l s body w).2.
Proof.
  revert s w. induction l as [| x l IH]; intros s w Hbody Hw; [done |].
  cbn [service_for_each]. rewrite service_bind_unfold.
  pose proof (Hbody s x w ltac:(apply list_elem_of_here) Hw) as H1.
  destruct (body s x w) as [[s' | e] w1]; [| done].
  apply IH; [| done]. intros s0 y w0 Hy. apply Hbody. by apply elem_of_cons; right.
Qed.

Section BatchFrame.
Variable state_hash : GTOGameState → Z.

Lemma batch_scenario_disconnected batch_id total n c st sc w :
  redis_client w = None →
  redis_client (batch_scenario state_hash batch_id total n c st sc w).2 = None.
Proof.
  intros Hw. destruct st as [completed rates]. unfold batch_scenario.
  unfold cfr_solver_solve_strategy, cache_batch_result, try_except, lift, logger,
    redis_connected, redis_setex.
  unfold mbind, service_bind, mret, service_ret. cbv beta iota.
  destruct (solve_strategy sc n) as [r | e]; cbv beta iota;
    cbn [redis_client now log add_log]; rewrite ?Hw; cbv beta iota;
    cbn [redis_client now log add_log]; rewrite ?Hw; [| done].
  rewrite andb_false_r. cbn [andb]. cbv beta iota. exact Hw.
Qed.

Lemma process_batch_disconnected batch_id scenarios n c w :
  redis_client w = None →
  redis_client (process_batch_background state_hash batch_id scenarios n c w) = None.
Proof.
  intros Hw. unfold process_batch_background, batch_loop. cbv zeta.
  pose proof (service_for_each_invariant (λ w, redis_client w = None) scenarios (0%Z, [])
                (batch_scenario state_hash batch_id (Z.of_nat (length scenarios)) n c) w) as H.
  destruct (service_for_each _ _ _ w) as [[st | e] w']; cbn [snd] in H.
  - apply H; [| done]. intros. by apply batch_scenario_disconnected.
  - unfold add_log. cbn [redis_client]. apply H; [| done].
    intros. by apply batch_scenario_disconnected.
Qed.

(** What a turn on a scenario with a nonzero pot and somebody playing leaves
    alone: every key but the progress key, and the clock. *)
Lemma batch_scenario_frame batch_id total n c st sc w key :
  pot sc ≠ 0%Z → players sc ≠ [] → key ≠ progress_key batch_id →
  (redis_get key (batch_scenario state_hash batch_id total n c st sc w).2).1
    = (redis_get key w).1.
Proof.
  intros Hpot Hpl Hkey.
  destruct (solve_strategy sc n) as [r | e] eqn:Hsolve.
  - destruct (redis_client w) as [store |] eqn:Hw.
    + rewrite (batch_scenario_connected state_hash batch_id total n c st sc r w store Hsolve Hw).
      cbv zeta. cbn [snd].
      assert (He : fltb (SolveResult.exploitability r) f0_01 = false).
      { apply fltb_false. by apply (solve_floor sc n r). }
      rewrite He, andb_false_r.
      unfold redis_get, store_get. cbn [fst redis_client now]. rewrite Hw.
      by rewrite lookup_insert_ne by done.
    + pose proof (batch_scenario_disconnected batch_id total n c st sc w Hw) as Hd.
      unfold redis_get. cbn [fst]. by rewrite Hd, Hw.
  - by rewrite (batch_scenario_failure state_hash _ _ _ _ _ _ _ _ Hsolve).
Qed.

End BatchFrame.

Lemma get_batch_status_live batch_id w store expires progress :
  redis_client w = Some store →
  store !! progress_key batch_id = Some (expires, ProgressJson progress) →
  (now w < expires)%Z →
  get_batch_status batch_id w = (Ok200 progress, w).
Proof.
  intros Hstore Hl Hnow.
  unfold get_batch_status. cbv zeta. unfold redis_get, store_get.
  unfold mbind, service_bind, mret, service_ret. cbv beta iota.
  rewrite Hstore, Hl.
  destruct (Z.ltb_spec (now w) expires); [done | lia].
Qed.

Lemma get_batch_status_stale batch_id w store expires v :
  redis_client w = Some store →
  store !! progress_key batch_id = Some (expires, v) →
  (expires <= now w)%Z →
  get_batch_status batch_id w = (Ok200 default_progress, w).
Proof.
  intros Hstore Hl Hnow. apply get_batch_status_default.
  unfold redis_get, store_get. cbn [fst]. rewrite Hstore, Hl.
  destruct (Z.ltb_spec (now w) expires); [lia | done].
Qed.

(** * Further properties of the endpoints' failures *)

(** X8.  A budget of zero or fewer iterations is a server error.  The
    analysis endpoint answers 500 with the solver's [UnboundLocalError] and
    logs it twice; so does the strategy endpoint when the cache holds no entry
    for the request, whereas with a cached response it answers 200 without
    looking at the budget. *)
Theorem zero_budget_is_a_server_error state_hash gs n w :
  (n <= 0)%Z →
  get_gto_analysis gs n w =
    (Error500 UnboundLocalError,
     add_log (AnalysisError UnboundLocalError) (add_log (CFRSolveError UnboundLocalError) w)) ∧
  ((redis_get (strategy_cache_key state_hash gs) w).1 = Ret None →
   compute_gto_strategy state_hash gs n w =
     (Error500 UnboundLocalError,
      add_log (StrategyError UnboundLocalError) (add_log (CFRSolveError UnboundLocalError) w))) ∧
  (∀ response,
     (redis_get (strategy_cache_key state_hash gs) w).1 = Ret (Some (StrategyJson response)) →
     compute_gto_strategy state_hash gs n w = (Ok200 response, w)).
Proof.
  intros Hn. split; [| split].
  - by rewrite get_gto_analysis_cases, solve_strategy_no_iteration.
  - intros Hmiss. by rewrite compute_gto_strategy_miss, solve_strategy_no_iteration.
  - intros response. apply compute_gto_strategy_hit.
Qed.

Lemma zero_budget_is_a_server_error_witness :
  get_gto_analysis (aces_preflop 3) 0 quiet_world =
    (Error500 UnboundLocalError,
     {| redis_client := Some ∅; now := 0;
        log := [CFRSolveError UnboundLocalError; AnalysisError UnboundLocalError] |}).
Proof.
  apply (proj1 (zero_budget_is_a_server_error sample_hash (aces_preflop 3) 0 quiet_world
                  ltac:(lia))).
Defined.

(** X9.  An acting-player index outside [-len(players), len(players))
    (every index, when there are no players) is a server error although the
    solve succeeds: with a budget of at least one iteration and a pot that fits
    a [float], both endpoints (the strategy endpoint after a cache miss)
    answer 500 with [IndexError], log it once, and leave Redis as it was. *)
Theorem acting_player_out_of_range state_hash gs n w :
  ¬ (- Z.of_nat (length (players gs)) <= current_player gs
       < Z.of_nat (length (players gs)))%Z →
  (1 <= n)%Z → players gs = [] ∨ (Z.abs (pot gs) < float_overflow_bound)%Z →
  get_gto_analysis gs n w = (Error500 IndexError, add_log (AnalysisError IndexError) w) ∧
  ((redis_get (strategy_cache_key state_hash gs) w).1 = Ret None →
   compute_gto_strategy state_hash gs n w =
     (Error500 IndexError, add_log (StrategyError IndexError) w)).
Proof.
  intros Hcp Hn Hok.
  destruct (solve_strategy_returns gs n Hn Hok) as [r Hr].
  split.
  - rewrite get_gto_analysis_cases, Hr. unfold analysis_response.
    by rewrite list_index_out_of_range.
  - intros Hmiss. rewrite compute_gto_strategy_miss, Hr by done.
    unfold strategy_response. by rewrite generate_info_set_out_of_range.
Qed.

Lemma acting_player_out_of_range_witness :
  get_gto_analysis
    {| street := "flop"; pot := 100; community_cards := "AhKd7c";
       players := [seat "AsKs" 10 "BTN"];
       current_player := 1; history := []; is_terminal := false |} 10 quiet_world
  = (Error500 IndexError, add_log (AnalysisError IndexError) quiet_world).
Proof.
  destruct (acting_player_out_of_range sample_hash
              {| street := "flop"; pot := 100; community_cards := "AhKd7c";
                 players := [seat "AsKs" 10 "BTN"];
                 current_player := 1; history := []; is_terminal := false |}
              10 quiet_world) as [H _].
  - cbn. lia.
  - lia.
  - right. by vm_compute.
  - exact H.
Defined.

(** * Further properties of the batch job *)

(** X10.  The status of a finished job.  After a job over a non-empty list of
    solvable scenarios, run with Redis connected, no warning or error was
    logged and the status endpoint reports
    [completed = total = len(scenarios)] with no time remaining, for 600
    seconds; from then on it reports the default progress (0 of 0,
    exploitability 1.0), as for a job that never existed. *)
Theorem finished_batch_status state_hash batch_id scenarios n c w store :
  scenarios ≠ [] →
  Forall (λ sc, is_Ret (solve_strategy sc n)) scenarios →
  redis_client w = Some store →
  let w' := process_batch_background state_hash batch_id scenarios n c w in
  log w' = log w ∧
  ∃ progress,
    TrainingProgress.completed progress = Z.of_nat (length scenarios) ∧
    TrainingProgress.total progress = Z.of_nat (length scenarios) ∧
    TrainingProgress.estimated_time_remaining progress = 0%Z ∧
    (∀ dt, (0 <= dt < 600)%Z →
       get_batch_status batch_id (tick dt w') = (Ok200 progress, tick dt w')) ∧
    (∀ dt, (600 <= dt)%Z →
       get_batch_status batch_id (tick dt w') = (Ok200 default_progress, tick dt w')).
Proof.
  intros Hne Hall Hstore. cbv zeta.
  destruct (finished_batch state_hash batch_id scenarios n c w store Hne Hall Hstore)
    as (store' & -> & progress & Hl & Hc & Ht & He).
  split; [reflexivity |]. exists progress.
  split; [exact Hc |]. split; [exact Ht |]. split; [rewrite He; lia |].
  split.
  - intros dt Hdt. eapply get_batch_status_live; [reflexivity | exact Hl |]. cbn. lia.
  - intros dt Hdt. eapply get_batch_status_stale; [reflexivity | exact Hl |]. cbn. lia.
Qed.

Lemma finished_batch_status_witness :
  let w' := process_batch_background sample_hash "job" [aces_preflop 0; aces_preflop 3] 1 true
              quiet_world in
  ∃ progress,
    TrainingProgress.completed progress = 2%Z ∧
    TrainingProgress.total progress = 2%Z ∧
    get_batch_status "job" (tick 599 w') = (Ok200 progress, tick 599 w') ∧
    get_batch_status "job" (tick 600 w') = (Ok200 default_progress, tick 600 w').
Proof.
  cbv zeta.
  destruct (finished_batch_status sample_hash "job" [aces_preflop 0; aces_preflop 3] 1 true
              quiet_world ∅) as (_ & progress & Hc & Ht & _ & Hlive & Hstale).
  - discriminate.
  - repeat constructor; apply solve_strategy_returns; (lia || (right; by vm_compute)).
  - reflexivity.
  - exists progress. split; [exact Hc |]. split; [exact Ht |].
    split; [apply Hlive; lia | apply Hstale; lia].
Defined.

(** X11.  A job that aborted looks like a job still running.  When the first
    failing scenario comes after a non-empty run of solvable ones (Redis
    connected), the job logs the failure twice and ends, and for 600 seconds
    the status endpoint keeps reporting [completed = len(pre)] out of
    [total = len(scenarios)] with [2 * (total - completed)] seconds remaining:
    nothing in the status tells the failure. *)
Theorem aborted_batch_status state_hash batch_id pre bad post n c e w store :
  pre ≠ [] →
  Forall (λ sc, is_Ret (solve_strategy sc n)) pre →
  solve_strategy bad n = Raise e →
  redis_client w = Some store →
  let w' := process_batch_background state_hash batch_id (pre ++ bad :: post) n c w in
  log w' = log w ++ [CFRSolveError e; BatchBackgroundError e] ∧
  ∃ progress,
    TrainingProgress.completed progress = Z.of_nat (length pre) ∧
    TrainingProgress.total progress = Z.of_nat (length (pre ++ bad :: post)) ∧
    TrainingProgress.estimated_time_remaining progress
      = (2 * (Z.of_nat (length post) + 1))%Z ∧
    (∀ dt, (0 <= dt < 600)%Z →
       get_batch_status batch_id (tick dt w') = (Ok200 progress, tick dt w')).
Proof.
  intros Hne Hall Hbad Hstore. cbv zeta.
  destruct (aborted_batch state_hash batch_id pre bad post n c e w store Hne Hall Hbad Hstore)
    as (store' & -> & progress & Hl & Hc & Ht & He).
  split; [reflexivity |]. exists progress.
  split; [exact Hc |]. split; [exact Ht |].
  split; [rewrite He, length_app; cbn [length]; lia |].
  intros dt Hdt. eapply get_batch_status_live; [reflexivity | exact Hl |]. cbn. lia.
Qed.

Lemma aborted_batch_status_witness :
  let w' := process_batch_background sample_hash "job"
              [aces_preflop 0; aces_preflop (10 ^ 400); heads_up 0 false] 1 true quiet_world in
  log w' = [] ++ [CFRSolveError OverflowError; BatchBackgroundError OverflowError] ∧
  ∃ progress,
    TrainingProgress.completed progress = 1%Z ∧
    TrainingProgress.total progress = 3%Z ∧
    TrainingProgress.estimated_time_remaining progress = 4%Z ∧
    get_batch_status "job" (tick 30 w') = (Ok200 progress, tick 30 w').
Proof.
  cbv zeta.
  destruct (aborted_batch_status sample_hash "job" [aces_preflop 0] (aces_preflop (10 ^ 400))
              [heads_up 0 false] 1 true OverflowError quiet_world ∅)
    as (Hlog & progress & Hc & Ht & He & Hlive).
  - discriminate.
  - repeat constructor. apply solve_strategy_returns; [lia | by right].
  - by vm_compute.
  - reflexivity.
  - split; [exact Hlog |]. exists progress.
    split; [exact Hc |]. split; [exact Ht |]. split; [exact He |]. apply Hlive. lia.
Defined.

(** X12.  Without Redis there is no progress to see.  When the start-up
    connection failed, a job of any scenarios leaves the client unset, and the
    status endpoint answers the default progress (0 of 0, exploitability 1.0)
    for every batch id, before, during and after the job. *)
Theorem status_without_redis state_hash batch_id scenarios n c w :
  redis_client w = None →
  let w' := process_batch_background state_hash batch_id scenarios n c w in
  redis_client w' = None ∧
  (∀ id, get_batch_status id w = (Ok200 default_progress, w)) ∧
  (∀ id, get_batch_status id w' = (Ok200 default_progress, w')).
Proof.
  intros Hw. cbv zeta.
  pose proof (process_batch_disconnected state_hash batch_id scenarios n c w Hw) as Hw'.
  split; [exact Hw' |]. split.
  - intros id. apply get_batch_status_default. unfold redis_get. cbn [fst]. by rewrite Hw.
  - intros id. apply get_batch_status_default. unfold redis_get. cbn [fst]. by rewrite Hw'.
Qed.

Lemma status_without_redis_witness :
  let w := {| redis_client := None; now := 0; log := [] |} in
  let w' := process_batch_background sample_hash "job" [aces_preflop 0; aces_preflop 3] 1 true w in
  redis_client w' = None ∧
  get_batch_status "job" w' = (Ok200 default_progress, w').
Proof.
  cbv zeta.
  destruct (status_without_redis sample_hash "job" [aces_preflop 0; aces_preflop 3] 1 true
              {| redis_client := None; now := 0; log := [] |} eq_refl) as (H1 & _ & H2).
  split; [exact H1 | apply H2].
Defined.

(** X13.  A job whose scenarios all have a nonzero pot and at least one
    player caches no strategy: whatever it solves, and wherever it stops, every
    Redis key other than the job's own progress key reads after the job as it
    read before. *)
Theorem batch_of_nonzero_pots_caches_nothing state_hash batch_id scenarios n c w key :
  Forall (λ sc, pot sc ≠ 0%Z ∧ players sc ≠ []) scenarios →
  key ≠ progress_key batch_id →
  (redis_get key (process_batch_background state_hash batch_id scenarios n c w)).1
    = (redis_get key w).1.
Proof.
  intros Hall Hkey. unfold process_batch_background, batch_loop. cbv zeta.
  pose proof (service_for_each_invariant
                (λ w', (redis_get key w').1 = (redis_get key w).1) scenarios (0%Z, [])
                (batch_scenario state_hash batch_id (Z.of_nat (length scenarios)) n c) w) as H.
  assert (Hbody : ∀ (s : Z * list float) (x : GTOGameState) (w0 : World),
            x ∈ scenarios →
            (redis_get key w0).1 = (redis_get key w).1 →
            (redis_get key
               (batch_scenario state_hash batch_id (Z.of_nat (length scenarios)) n c s x w0).2).1
            = (redis_get key w).1).
  { intros s x w0 Hx Hw0. rewrite list.Forall_forall in Hall. destruct (Hall x Hx) as [Hp Hpl].
    by rewrite batch_scenario_frame. }
  specialize (H Hbody eq_refl).
  destruct (service_for_each _ _ _ w) as [[st | e] w']; cbn [snd] in H; [done |].
  exact H.
Qed.

Lemma batch_of_nonzero_pots_caches_nothing_witness :
  (redis_get (strategy_cache_key sample_hash (aces_preflop 3))
     (process_batch_background sample_hash "job" [aces_preflop 3; heads_up 100 false] 1 true
        quiet_world)).1
  = (redis_get (strategy_cache_key sample_hash (aces_preflop 3)) quiet_world).1.
Proof.
  apply (batch_of_nonzero_pots_caches_nothing sample_hash "job"
           [aces_preflop 3; heads_up 100 false] 1 true quiet_world).
  - repeat constructor; discriminate.
  - apply not_eq_sym, progress_key_ne.
Defined.

(** * Further properties of the analysis helpers *)

(** X14.  The call amount.  When the acting-player index is valid, the call
    amount is what the acting player must add to match the largest investment
    at the table (a missing [invested] counts 0): nobody has invested more than
    the acting player's investment plus the call amount, and somebody has
    invested exactly that.  When the index is out of range the call amount
    is 0. *)
Theorem call_amount_matches_largest_investment gs :
  (∀ pd, list_index (players gs) (current_player gs) = Ret pd →
     (∀ other, other ∈ players gs →
        (default 0 (invested other) <= default 0 (invested pd) + get_call_amount gs)%Z) ∧
     (∃ other, other ∈ players gs ∧
        default 0%Z (invested other) = (default 0 (invested pd) + get_call_amount gs)%Z)) ∧
  (∀ e, list_index (players gs) (current_player gs) = Raise e → get_call_amount gs = 0%Z).
Proof.
  split.
  - intros pd Hpd. unfold get_call_amount. rewrite Hpd, bind_Ret.
    pose proof (list_index_elem _ _ _ Hpd) as Hin.
    destruct (py_max_int _) as [m |] eqn:Em.
    2: { destruct (players gs); [by apply elem_of_nil in Hin | done]. }
    rewrite bind_Ret.
    destruct (py_max_int_spec _ _ Em) as [Hmax Hmem].
    assert (Hown : (default 0 (invested pd) <= m)%Z).
    { apply Hmax. apply list_elem_of_fmap. by exists pd. }
    destruct (Z.ltb_spec 0 (m - default 0 (invested pd))%Z) as [Hlt | Hge].
    + split.
      * intros other Hother.
        assert ((default 0 (invested other) <= m)%Z); [| lia].
        apply Hmax. apply list_elem_of_fmap. by exists other.
      * apply list_elem_of_fmap in Hmem as (other & -> & Hother).
        exists other. split; [done | lia].
    + assert (m = default 0%Z (invested pd)) by lia. subst m. split.
      * intros other Hother.
        assert ((default 0 (invested other) <= default 0 (invested pd))%Z); [| lia].
        apply Hmax. apply list_elem_of_fmap. by exists other.
      * exists pd. split; [done | lia].
  - intros e He. unfold get_call_amount. by rewrite He.
Qed.

Lemma call_amount_matches_largest_investment_witness :
  let gs := {| street := "turn"; pot := 120; community_cards := "AhKd7c2s";
               players := [seat "QsQd" 20 "BTN"; seat "XX" 50 "BB"; seat "XX" 35 "SB"];
               current_player := -3; history := []; is_terminal := false |} in
  ∃ other, other ∈ players gs ∧
           default 0%Z (invested other) = (20 + get_call_amount gs)%Z.
Proof.
  cbv zeta.
  apply (proj1 (call_amount_matches_largest_investment _) (seat "QsQd" 20 "BTN")).
  reflexivity.
Defined.



(** X16.  Equity is hand strength.  The hand strength is one of 0.3, 0.5,
    0.7 and 0.9 (0.5 for missing hole cards) and never depends on the
    community cards; the clamp to [0.1, 0.9] in [calculate_equity] therefore
    never changes anything, and the equity equals the hand strength. *)
Theorem equity_equals_hand_strength hole_cards community_cards :
  calculate_equity hole_cards community_cards
    = calculate_hand_strength hole_cards community_cards ∧
  calculate_hand_strength hole_cards community_cards ∈ [f0_3; f0_5; f0_7; f0_9] ∧
  calculate_hand_strength hole_cards community_cards = calculate_hand_strength hole_cards "" ∧
  calculate_hand_strength "" community_cards = f0_5.
Proof.
  split; [apply equity_is_hand_strength |].
  split; [apply hand_strength_values |]. split; reflexivity.
Qed.

(** X17.  Hole cards in rank-suit notation are always rated weak.  The
    hand-strength tables hold hand classes (["AA"], ["AKs"], ...), looked up
    as substrings; two cards written rank, suit, rank, suit, as in ["AsAc"],
    contain none of them, so every such hand, pocket aces included, gets hand
    strength 0.3. *)
Theorem two_cards_are_rated_weak r1 s1 r2 s2 community_cards :
  r1 ∈ ranks → s1 ∈ suits → r2 ∈ ranks → s2 ∈ suits →
  calculate_hand_strength (two_cards r1 s1 r2 s2) community_cards = f0_3.
Proof.
  intros Hr1 Hs1 Hr2 Hs2. apply hand_strength_no_class; [done |].
  pose proof two_cards_no_class as H.
  rewrite forallb_forall in H. apply list_elem_of_In, H in Hr1.
  rewrite forallb_forall in Hr1. apply list_elem_of_In, Hr1 in Hs1.
  rewrite forallb_forall in Hs1. apply list_elem_of_In, Hs1 in Hr2.
  rewrite forallb_forall in Hr2. apply list_elem_of_In, Hr2 in Hs2.
  by apply negb_true_iff in Hs2.
Qed.

Lemma two_cards_are_rated_weak_witness :
  calculate_hand_strength "AsAc" "" = f0_3 ∧ calculate_hand_strength "AA" "" = f0_9.
Proof.
  split; [| reflexivity].
  apply (two_cards_are_rated_weak _ _ _ _ ""); unfold ranks, suits; cbn; set_solver.
Defined.

(** * Further properties of the analysis endpoint *)

(** The analysis of a request with a valid acting player and a non-negative
    pot that fits a [float], from a solve that returned. *)
Lemma analysis_of_solved gs n r :
  (- Z.of_nat (length (players gs)) <= current_player gs < Z.of_nat (length (players gs)))%Z →
  (0 <= pot gs < float_overflow_bound)%Z →
  solve_strategy gs n = Ret r →
  ∃ pd key x y z po best bp a1 a2,
    list_index (players gs) (current_player gs) = Ret pd ∧
    _generate_info_set gs (current_player gs) = Ret key ∧
    SolveResult.strategy r !! key = Some (dict3 x y z) ∧
    (0 <= x)%Qc ∧ (0 <= y)%Qc ∧ (0 <= z)%Qc ∧ (x + y + z = 1)%Qc ∧
    calculate_pot_odds (pot gs) (get_call_amount gs) = Ret po ∧
    (0 <= po)%Qc ∧ (po <= 1)%Qc ∧
    analysis_response gs r =
      Ret {| GTOAnalysis.decision :=
               {| GTODecision.action := best;
                  GTODecision.amount :=
                    if String.eqb best "raise" || String.eqb best "bet"
                    then Some (py_int (f0_75 * Z2Qc (pot gs))) else None;
                  GTODecision.probability := bp;
                  GTODecision.alternatives := [a1; a2];
                  GTODecision.reasoning_text :=
                    generate_reasoning best
                      (calculate_hand_strength (default "" (holeCards pd)) (community_cards gs))
                      po;
                  GTODecision.exploitability := SolveResult.exploitability r;
                  GTODecision.confidence := confidence_of (SolveResult.exploitability r) |};
             GTOAnalysis.hand_strength :=
               calculate_hand_strength (default "" (holeCards pd)) (community_cards gs);
             GTOAnalysis.position := default "BTN" (position pd);
             GTOAnalysis.pot_odds := po;
             GTOAnalysis.implied_odds := (po * f1_2)%Qc;
             GTOAnalysis.equity :=
               calculate_equity (default "" (holeCards pd)) (community_cards gs);
             GTOAnalysis.expected_value :=
               (calculate_equity (default "" (holeCards pd)) (community_cards gs)
                * Z2Qc (pot gs))%Qc;
             GTOAnalysis.risk_assessment :=
               {| variance := pymin 1 (SolveResult.exploitability r * Z2Qc 10);
                  drawouts := 0;
                  bluff_catchers := [] |} |} ∧
    dict_get (dict3 x y z) best = Some bp ∧
    (x <= bp)%Qc ∧ (y <= bp)%Qc ∧ (z <= bp)%Qc ∧
    alt_action a1 ≠ best ∧ alt_action a2 ≠ best ∧ alt_action a1 ≠ alt_action a2 ∧
    dict_get (dict3 x y z) (alt_action a1) = Some (alt_probability a1) ∧
    dict_get (dict3 x y z) (alt_action a2) = Some (alt_probability a2) ∧
    (alt_probability a2 <= alt_probability a1)%Qc ∧ (alt_probability a1 <= bp)%Qc ∧
    ev_difference a1 = ((bp - alt_probability a1) * Z2Qc (pot gs))%Qc ∧
    ev_difference a2 = ((bp - alt_probability a2) * Z2Qc (pot gs))%Qc ∧
    (best = "raise" ↔ (x < z)%Qc ∧ (y < z)%Qc) ∧
    (best = "fold" ↔ (y <= x)%Qc ∧ (z <= x)%Qc).
Proof.
  intros Hcp Hpot Hsolve.
  destruct (list_index_in_range (players gs) (current_player gs) Hcp) as [pd Hpd].
  destruct (generate_info_set_in_range gs (current_player gs) Hcp) as [key Hkey].
  destruct (solved_entry gs n r _ key Hsolve Hkey) as (x & y & z & Hdef & Hs & Hx & Hy & Hz & Hsum).
  destruct (pot_odds_range (pot gs) (get_call_amount gs) ltac:(lia)
              (get_call_amount_nonneg gs)) as (po & Hpo & Hpo0 & Hpo1 & _).
  assert (Hp : float_of_int (pot gs) = Ret (Z2Qc (pot gs))) by (apply float_of_int_small; lia).
  destruct (analysis_response_dict3 gs r pd key x y z _ po Hpd Hkey Hdef Hp Hpo)
    as (best & bp & a1 & a2 & Hresp & Hrest).
  exists pd, key, x, y, z, po, best, bp, a1, a2.
  repeat (split; [assumption |]). exact Hrest.
Qed.

(** X18.  A well-formed request is always analysed.  With a valid
    acting-player index, a non-negative pot that fits a [float] and a budget of
    at least one iteration, the analysis endpoint answers 200 and changes
    nothing (no warning or error logged, no Redis write); the pot odds it
    reports lie between 0 and 1, the implied odds are 1.2 times the pot odds,
    the equity equals the hand strength, the expected value is the equity times
    the pot, and the number of draw-outs is 0. *)
Theorem well_formed_request_is_analysed gs n w :
  (- Z.of_nat (length (players gs)) <= current_player gs < Z.of_nat (length (players gs)))%Z →
  (0 <= pot gs < float_overflow_bound)%Z →
  (1 <= n)%Z →
  ∃ a, get_gto_analysis gs n w = (Ok200 a, w) ∧
       (0 <= GTOAnalysis.pot_odds a)%Qc ∧ (GTOAnalysis.pot_odds a <= 1)%Qc ∧
       GTOAnalysis.implied_odds a = (GTOAnalysis.pot_odds a * f1_2)%Qc ∧
       GTOAnalysis.equity a = GTOAnalysis.hand_strength a ∧
       GTOAnalysis.expected_value a = (GTOAnalysis.equity a * Z2Qc (pot gs))%Qc ∧
       drawouts (GTOAnalysis.risk_assessment a) = 0%Z.
Proof.
  intros Hcp Hpot Hn.
  destruct (solve_strategy_returns gs n Hn) as [r Hr]; [right; lia |].
  destruct (analysis_of_solved gs n r Hcp Hpot Hr)
    as (pd & key & x & y & z & po & best & bp & a1 & a2 & _ & _ & _ & _ & _ & _ & _ & _
        & Hpo0 & Hpo1 & Hresp & _).
  rewrite get_gto_analysis_cases, Hr, Hresp.
  eexists. split; [reflexivity |].
  cbn [GTOAnalysis.pot_odds GTOAnalysis.implied_odds GTOAnalysis.equity
       GTOAnalysis.hand_strength GTOAnalysis.expected_value GTOAnalysis.risk_assessment
       drawouts].
  split; [exact Hpo0 |]. split; [exact Hpo1 |]. split; [reflexivity |].
  split; [apply equity_is_hand_strength |]. split; reflexivity.
Qed.

Lemma well_formed_request_is_analysed_witness :
  ∃ a, get_gto_analysis (aces_preflop 3) 5 quiet_world = (Ok200 a, quiet_world) ∧
       GTOAnalysis.equity a = GTOAnalysis.hand_strength a.
Proof.
  destruct (well_formed_request_is_analysed (aces_preflop 3) 5 quiet_world)
    as (a & Ha & _ & _ & _ & He & _).
  - cbn. lia.
  - split; [cbn; lia | by vm_compute].
  - lia.
  - exists a. split; [exact Ha | exact He].
Defined.

(** X19.  The recommendation is the most likely action.  In every analysis
    the endpoint returns, the recommended action is an action of the solver's
    strategy for the acting player's info set, its reported probability is the
    strategy's largest entry and at least 1/3, and the alternatives are the two
    other actions with their probabilities, in descending order, each with
    [ev_difference = (probability - alternative's probability) * pot]. *)
Theorem recommendation_is_most_likely gs n w a w' :
  get_gto_analysis gs n w = (Ok200 a, w') →
  ∃ r key s a1 a2,
    solve_strategy gs n = Ret r ∧
    _generate_info_set gs (current_player gs) = Ret key ∧
    SolveResult.strategy r !! key = Some s ∧
    let d := GTOAnalysis.decision a in
    dict_get s (GTODecision.action d) = Some (GTODecision.probability d) ∧
    Forall (λ v, (v <= GTODecision.probability d)%Qc) (dict_values s) ∧
    (third <= GTODecision.probability d)%Qc ∧
    GTODecision.alternatives d = [a1; a2] ∧
    alt_action a1 ≠ GTODecision.action d ∧ alt_action a2 ≠ GTODecision.action d ∧
    alt_action a1 ≠ alt_action a2 ∧
    dict_get s (alt_action a1) = Some (alt_probability a1) ∧
    dict_get s (alt_action a2) = Some (alt_probability a2) ∧
    (alt_probability a2 <= alt_probability a1)%Qc ∧
    (alt_probability a1 <= GTODecision.probability d)%Qc ∧
    ev_difference a1 = ((GTODecision.probability d - alt_probability a1) * Z2Qc (pot gs))%Qc ∧
    ev_difference a2 = ((GTODecision.probability d - alt_probability a2) * Z2Qc (pot gs))%Qc.
Proof.
  rewrite get_gto_analysis_cases.
  destruct (solve_strategy gs n) as [r | e] eqn:Hsolve; [| done].
  destruct (analysis_response gs r) as [a' | e] eqn:Hresp; [| done].
  intros [= -> <-].
  destruct (analysis_response_Ret gs r a Hresp) as (pd & key & p & po & Hpd & Hkey & Hp & Hpo).
  destruct (solved_entry gs n r _ key Hsolve Hkey) as (x & y & z & Hdef & Hs & Hx & Hy & Hz & Hsum).
  destruct (analysis_response_dict3 gs r pd key x y z p po Hpd Hkey Hdef Hp Hpo)
    as (best & bp & a1 & a2 & Hresp' & Hget & Hbx & Hby & Hbz & Hn1 & Hn2 & Hn12 & Hg1 & Hg2
        & Ho21 & Ho1 & He1 & He2 & _).
  rewrite Hresp in Hresp'. injection Hresp' as ->.
  assert (Hpz : p = Z2Qc (pot gs)).
  { destruct (float_of_int_cases (pot gs)) as [E | E]; rewrite E in Hp; [by injection Hp | done]. }
  subst p.
  exists r, key, (dict3 x y z), a1, a2.
  split; [first [exact Hsolve | reflexivity] |]. split; [exact Hkey |]. split; [exact Hs |].
  cbv zeta. cbn [GTOAnalysis.decision GTODecision.action GTODecision.probability
                 GTODecision.alternatives].
  split; [exact Hget |].
  split; [repeat constructor; assumption |].
  split; [qc_lra |].
  split; [reflexivity |].
  repeat (split; [assumption |]). exact He2.
Qed.

Lemma sample_analysis :
  ∃ a, get_gto_analysis (aces_preflop 3) 5 quiet_world = (Ok200 a, quiet_world).
Proof.
  destruct (solve_strategy_returns (aces_preflop 3) 5) as [r Hr]; [lia | right; by vm_compute |].
  destruct (analysis_of_solved (aces_preflop 3) 5 r) as
    (pd & key & x & y & z & po & best & bp & a1 & a2 & _ & _ & _ & _ & _ & _ & _ & _
     & _ & _ & Hresp & _); [cbn; lia | split; [cbn; lia | by vm_compute] | exact Hr |].
  rewrite get_gto_analysis_cases, Hr, Hresp. by eexists.
Qed.

Lemma recommendation_is_most_likely_witness :
  ∃ a, get_gto_analysis (aces_preflop 3) 5 quiet_world = (Ok200 a, quiet_world) ∧
       (third <= GTODecision.probability (GTOAnalysis.decision a))%Qc.
Proof.
  destruct sample_analysis as (a & Ha).
  exists a. split; [exact Ha |].
  destruct (recommendation_is_most_likely (aces_preflop 3) 5 quiet_world a quiet_world Ha)
    as (r & key & s & a1 & a2 & _ & _ & _ & H).
  cbv zeta in H. destruct H as (_ & _ & H & _). exact H.
Defined.





(** * Growth of the exploitability with a positive pot *)












